(** * Pod and persistent-IP allocation in the cluster manager

    A shallow embedding of
      go-controller/pkg/clustermanager/pod/allocator.go
      go-controller/pkg/clustermanager/persistentips/allocator.go
    together with the properties their specification states about them.

    Go values are modelled as follows.
    - an [error] is [option error_value], [None] being Go's [nil];
    - a pointer that may be nil ([*corev1.Pod], [*IPAMClaim]) is an [option];
    - a method with a pointer receiver is a computation in the monad [M],
      which threads the receiver and stops on a runtime panic;
    - [map[string]sets.Set[string]] is a [gmap string (gset string)];
    - the interfaces [subnet.Allocator], [id.Allocator], [kube.InterfaceOVN]
      and the packages [util] and [pod] the two files call into are type
      classes: their code is not part of the two files. *)

From Stdlib Require Import ZArith.
From stdpp Require Import base option gmap sets list strings.

Local Open Scope string_scope.

(** ** Errors *)

(** [Sentinel] is an error value made by a collaborator (for instance
    [ipam.ErrAllocated]); [Errorf] is a call of [fmt.Errorf] whose format only
    prints its arguments ([%v], [%q]); [Wrapf] is a call of [fmt.Errorf] that
    wraps [cause] with the verb [%w]. *)
Inductive error_value : Type :=
| Sentinel (name : string)
| Errorf (format : string)
| Wrapf (format : string) (cause : error_value).

Abbreviation error := (option error_value).

Definition nil {A : Type} : option A := None.

Definition is_nil {A : Type} (x : option A) : bool :=
  match x with None => true | Some _ => false end.

(** ** The monad of methods: receiver state and panics *)

Definition M (St A : Type) : Type := St → option (A * St).

#[export] Instance M_ret {St} : MRet (M St) := λ A v s, Some (v, s).
#[export] Instance M_bind {St} : MBind (M St) :=
  λ A B f m s, match m s with
               | Some (v, s') => f v s'
               | None => None
               end.

Definition gets {St A} (f : St → A) : M St A := λ s, Some (f s, s).
Definition modify {St} (f : St → St) : M St () := λ s, Some ((), f s).
(** A nil dereference. *)
Definition panic {St A} : M St A := λ _, None.

(** [for ... range xs { err = f x; if err != nil { return err } }; return nil] *)
Fixpoint for_each_until_error {St A} (f : A → M St error) (xs : list A) : M St error :=
  match xs with
  | [] => mret nil
  | x :: xs' =>
      err ← f x;
      match err with
      | Some e => mret (Some e)
      | None => for_each_until_error f xs'
      end
  end.

(** Unfolds the operations of the monad [M]. *)
Ltac run :=
  repeat (progress (cbv beta iota delta
            [mbind mret M_bind M_ret gets modify panic] in *; simpl in *)).

(** ** Data *)

(** [net.IPNet]: an address and the length of its mask. *)
Record IPNet := { ipAddr : N; ipMaskLen : nat }.

#[export] Instance IPNet_eq_dec : EqDecision IPNet.
Proof. solve_decision. Defined.

#[export] Instance IPNet_countable : Countable IPNet.
Proof.
  refine (inj_countable' (λ n, (ipAddr n, ipMaskLen n))
                         (λ p, {| ipAddr := p.1; ipMaskLen := p.2 |}) _).
  by intros [].
Defined.

(** The fields of [corev1.Pod] the allocators and [util] read. *)
Record Pod := {
  Name : string;
  Namespace : string;
  UID : string;
  Annotations : gmap string string;
  NodeName : string;      (* Spec.NodeName *)
  HostNetwork : bool;     (* Spec.HostNetwork *)
  Phase : string;         (* Status.Phase *)
}.

(** [nettypes.NetworkSelectionElement] *)
Record NetworkSelectionElement := {
  nseName : string;
  nseNamespace : string;
  IPAMClaimReference : string;
}.

(** [util.PodAnnotation] *)
Record PodAnnotation := {
  IPs : list IPNet;
  MAC : string;
  Gateways : list string;
  Routes : list string;
  TunnelID : Z;
}.

(** [&util.PodAnnotation{}] *)
Definition emptyPodAnnotation : PodAnnotation :=
  {| IPs := []; MAC := ""; Gateways := []; Routes := []; TunnelID := 0 |}.

(** [ipamclaimsapi.IPAMClaim], with [Status.IPs] as [StatusIPs]. *)
Record IPAMClaim := {
  claimName : string;
  claimNamespace : string;
  StatusIPs : list string;
}.

(** [util.NetInfo] *)
Record NetInfo := {
  GetNetworkName : string;
  TopologyType : string;
  Subnets : list IPNet;          (* the CIDR of every subnet *)
  ExcludeSubnets : list IPNet;
}.

(** The elements of the [[]interface{}] handed to [Sync]. *)
Inductive Object :=
| PodObject (pod : Pod)
| IPAMClaimObject (claim : IPAMClaim)
| OtherObject (typeName : string).

(** The informer cache behind [watchFactory.GetPersistentIPs]. *)
Record WatchFactory := {
  GetPersistentIPs : string → string → option IPAMClaim * error;
}.

(** ** Collaborators *)

(** Package [util] and the constant of package [types]. The map returned by
    [GetPodNADToNetworkMapping] is given as the list of its entries in the
    order the [range] loop of [reconcile] visits them. *)
Class UtilPkg := {
  PodScheduled : Pod → bool;
  PodWantsHostNetwork : Pod → bool;
  PodCompleted : Pod → bool;
  DoesNetworkRequireIPAM : NetInfo → bool;
  DoesNetworkRequireTunnelIDs : NetInfo → bool;
  GetPodNADToNetworkMapping :
    Pod → NetInfo → bool * list (string * NetworkSelectionElement) * error;
  UnmarshalPodAnnotation : gmap string string → string → option PodAnnotation * error;
  ParseIPNets : list string → list IPNet * error;
  StringSlice : list IPNet → list string;
  IsErrAllocated : error_value → bool;     (* ipam.IsErrAllocated *)
  MaxLogicalPortTunnelKey : Z;
}.

(** [subnet.Allocator] over a store [S]. *)
Class SubnetAllocator (S : Type) := {
  NewAllocator : S;
  AddOrUpdateSubnet : string → list IPNet → list IPNet → S → error * S;
  AllocateIPs : string → list IPNet → S → error * S;
  ReleaseIPs : string → list IPNet → S → error * S;
}.

(** [id.Allocator] over a store [I]. *)
Class IDAllocator (I : Type) := {
  NewIDAllocator : string → Z → option I * error;
  ReserveID : string → Z → I → error * I;
  ReleaseID : string → I → I;
}.

(** [kube.InterfaceOVN] over the state [K] of the API server. *)
Class KubeOVN (K : Type) := {
  UpdateIPAMLeaseIPs : IPAMClaim → list string → K → error * K;
}.

(** [pod.PodAnnotationAllocator]. The first two arguments say whether the
    named allocators handed over are non-nil: the subnet name behind
    [ForSubnet] and the name behind [ForName]. The method works on the same
    stores as the caller; it returns the updated pod (nil when nothing was
    written) with the annotation, or an error. *)
Class PodAnnotationAllocator (S I K : Type) := {
  AllocatePodAnnotationWithTunnelID :
    option string → option string → Pod → NetworkSelectionElement →
    option IPAMClaim → bool →
    option S * option I * K →
    (option Pod * PodAnnotation + error_value) * (option S * option I * K);
}.

(** [subnet.NamedAllocator]: the view [ForSubnet name] of an allocator. *)
Record NamedAllocator (S : Type) := {
  subnetName : string;
  subnetStore : S;
}.
Arguments subnetName {S} _.
Arguments subnetStore {S} _.

Definition ForSubnet {S : Type} (name : string) (s : S) : NamedAllocator S :=
  {| subnetName := name; subnetStore := s |}.

(** * Package persistentips *)

Module persistentips.

Record Allocator (S K : Type) := {
  kube : K;
  ipAllocator : NamedAllocator S;
}.
Arguments kube {S K} _.
Arguments ipAllocator {S K} _.

Section allocator.
Context {U : UtilPkg} {S K : Type} {SA : SubnetAllocator S} {KO : KubeOVN K}.

Definition NewPersistentIPsAllocator (kube : K) (ipAllocator : NamedAllocator S)
  : Allocator S K :=
  {| kube := kube; ipAllocator := ipAllocator |}.

(** [a.ipAllocator.AllocateIPs(ips)] and [a.ipAllocator.ReleaseIPs(ips)] *)
Definition ipAllocator_AllocateIPs (ips : list IPNet) : M (Allocator S K) error :=
  λ a, let na := ipAllocator a in
       let '(err, s') := AllocateIPs (subnetName na) ips (subnetStore na) in
       Some (err, {| kube := kube a; ipAllocator := ForSubnet (subnetName na) s' |}).

Definition ipAllocator_ReleaseIPs (ips : list IPNet) : M (Allocator S K) error :=
  λ a, let na := ipAllocator a in
       let '(err, s') := ReleaseIPs (subnetName na) ips (subnetStore na) in
       Some (err, {| kube := kube a; ipAllocator := ForSubnet (subnetName na) s' |}).

(** [a.kube.UpdateIPAMLeaseIPs(ipamClaim, ips)] *)
Definition kube_UpdateIPAMLeaseIPs (ipamClaim : IPAMClaim) (ips : list string)
  : M (Allocator S K) error :=
  λ a, let '(err, k') := UpdateIPAMLeaseIPs ipamClaim ips (kube a) in
       Some (err, {| kube := k'; ipAllocator := ipAllocator a |}).

Definition Delete (pips : IPAMClaim) : M (Allocator S K) error :=
  let '(ips, err) := ParseIPNets (StatusIPs pips) in
  match err with
  | Some _ => mret (Some (Errorf "failed parsing ipnets releasing persistent IPs: %v"))
  | None =>
      err ← ipAllocator_ReleaseIPs ips;
      match err with
      | Some _ => mret (Some (Errorf "failed releasing persistent IPs: %v"))
      | None => mret nil
      end
  end.

Definition Reconcile (ipamClaim : IPAMClaim) (ips : list string)
  : M (Allocator S K) error :=
  if bool_decide (0 < length (StatusIPs ipamClaim)) then mret nil
  else
    err ← kube_UpdateIPAMLeaseIPs ipamClaim ips;
    match err with
    | Some _ =>
        mret (Some (Errorf "failed to update the allocation %q with allocations %q: %v"))
    | None => mret nil
    end.

(** The loop of [Sync]: [ips] accumulates the parsed addresses; the loop
    leaves the function at the first claim that does not parse. *)
Fixpoint Sync_range (objs : list Object) (ips : list IPNet) : list IPNet * error :=
  match objs with
  | [] => (ips, nil)
  | IPAMClaimObject pips :: objs' =>
      let '(ipnets, err) := ParseIPNets (StatusIPs pips) in
      match err with
      | Some _ =>
          (ips, Some (Errorf "failed at parsing IP when allocating persistent IPs: %v"))
      | None => Sync_range objs' (ips ++ ipnets)
      end
  | _ :: objs' => Sync_range objs' ips
  end.

Definition Sync (objs : list Object) : M (Allocator S K) error :=
  let '(ips, err) := Sync_range objs [] in
  match err with
  | Some e => mret (Some e)
  | None =>
      if bool_decide (0 < length ips) then
        err ← ipAllocator_AllocateIPs ips;
        match err with
        | Some e =>
            if negb (IsErrAllocated e)
            then mret (Some (Errorf "failed allocating persistent ips: %v"))
            else mret nil
        | None => mret nil
        end
      else mret nil
  end.




End allocator.
End persistentips.

(** * Package pod (clustermanager) *)

Module pod.

Record PodAllocator (S I K : Type) := {
  netInfo : NetInfo;
  kube : K;
  watchFactory : WatchFactory;
  ipAllocator : option S;                       (* nil without IPAM *)
  idAllocator : option I;                       (* nil until [Init] *)
  releasedPods : gmap string (gset string);
}.
Arguments netInfo {S I K} _.
Arguments kube {S I K} _.
Arguments watchFactory {S I K} _.
Arguments ipAllocator {S I K} _.
Arguments idAllocator {S I K} _.
Arguments releasedPods {S I K} _.

Definition set_ipAllocator {S I K} (s : option S) (a : PodAllocator S I K) :=
  {| netInfo := netInfo a; kube := kube a; watchFactory := watchFactory a;
     ipAllocator := s; idAllocator := idAllocator a;
     releasedPods := releasedPods a |}.

Definition set_idAllocator {S I K} (i : option I) (a : PodAllocator S I K) :=
  {| netInfo := netInfo a; kube := kube a; watchFactory := watchFactory a;
     ipAllocator := ipAllocator a; idAllocator := i;
     releasedPods := releasedPods a |}.

Definition set_kube {S I K} (k : K) (a : PodAllocator S I K) :=
  {| netInfo := netInfo a; kube := k; watchFactory := watchFactory a;
     ipAllocator := ipAllocator a; idAllocator := idAllocator a;
     releasedPods := releasedPods a |}.

Definition set_releasedPods {S I K} (r : gmap string (gset string))
    (a : PodAllocator S I K) :=
  {| netInfo := netInfo a; kube := kube a; watchFactory := watchFactory a;
     ipAllocator := ipAllocator a; idAllocator := idAllocator a;
     releasedPods := r |}.

(** [fmt.Sprintf("%s/%s", nad, uid)] *)
Definition podIdAllocationName (nad uid : string) : string :=
  nad ++ "/" ++ uid.

Section allocator.
Context {U : UtilPkg} {S I K : Type}.
Context {SA : SubnetAllocator S} {IA : IDAllocator I} {KO : KubeOVN K}.
Context {PA : PodAnnotationAllocator S I K}.

Definition NewPodAllocator (netInfo : NetInfo) (kube : K) (watchFactory : WatchFactory)
  : PodAllocator S I K :=
  {| netInfo := netInfo; kube := kube; watchFactory := watchFactory;
     ipAllocator := if DoesNetworkRequireIPAM netInfo then Some NewAllocator else None;
     idAllocator := None;
     releasedPods := ∅ |}.

(** [IPAllocator]: the view of the subnet allocator under the name of the
    network. *)
Definition IPAllocator : M (PodAllocator S I K) (NamedAllocator S) :=
  λ a, match ipAllocator a with
       | None => None
       | Some s => Some (ForSubnet (GetNetworkName (netInfo a)) s, a)
       end.

(** Calls through the interface fields; a nil interface panics. *)
Definition ipAllocator_AddOrUpdateSubnet (name : string) (subnets excludes : list IPNet)
  : M (PodAllocator S I K) error :=
  λ a, match ipAllocator a with
       | None => None
       | Some s => let '(err, s') := AddOrUpdateSubnet name subnets excludes s in
                   Some (err, set_ipAllocator (Some s') a)
       end.

Definition ipAllocator_ReleaseIPs (name : string) (ips : list IPNet)
  : M (PodAllocator S I K) error :=
  λ a, match ipAllocator a with
       | None => None
       | Some s => let '(err, s') := ReleaseIPs name ips s in
                   Some (err, set_ipAllocator (Some s') a)
       end.

Definition idAllocator_ReserveID (name : string) (id : Z)
  : M (PodAllocator S I K) error :=
  λ a, match idAllocator a with
       | None => None
       | Some i => let '(err, i') := ReserveID name id i in
                   Some (err, set_idAllocator (Some i') a)
       end.

Definition idAllocator_ReleaseID (name : string) : M (PodAllocator S I K) () :=
  λ a, match idAllocator a with
       | None => None
       | Some i => Some ((), set_idAllocator (Some (ReleaseID name i)) a)
       end.

Definition Init : M (PodAllocator S I K) error :=
  a ← gets id;
  err ← (if DoesNetworkRequireTunnelIDs (netInfo a) then
           let '(i, err) := NewIDAllocator (GetNetworkName (netInfo a))
                                           MaxLogicalPortTunnelKey in
           modify (set_idAllocator i);;
           match err with
           | Some e => mret (Some e)
           | None => idAllocator_ReserveID "zero" 0
           end
         else mret nil);
  match err with
  | Some e => mret (Some e)
  | None =>
      if DoesNetworkRequireIPAM (netInfo a) then
        ipAllocator_AddOrUpdateSubnet (GetNetworkName (netInfo a))
                                      (Subnets (netInfo a))
                                      (ExcludeSubnets (netInfo a))
      else mret nil
  end.

(** ** The release ledger *)

Definition addReleasedPod (nad uid : string) : M (PodAllocator S I K) () :=
  modify (λ a,
    match releasedPods a !! nad with
    | None => set_releasedPods (<[nad := {[uid]}]> (releasedPods a)) a
    | Some released => set_releasedPods (<[nad := released ∪ {[uid]}]> (releasedPods a)) a
    end).

Definition deleteReleasedPod (nad uid : string) : M (PodAllocator S I K) () :=
  modify (λ a,
    match releasedPods a !! nad with
    | Some released =>
        let released' := released ∖ {[uid]} in
        if bool_decide (size released' = 0)
        then set_releasedPods (delete nad (releasedPods a)) a
        else set_releasedPods (<[nad := released']> (releasedPods a)) a
    | None => a
    end).

Definition isPodReleased (nad uid : string) (a : PodAllocator S I K) : bool :=
  match releasedPods a !! nad with
  | Some released => bool_decide (uid ∈ released)
  | None => false
  end.

(** ** Release *)

Definition releasePodOnNAD (pod : Pod) (nad : string)
    (networkSelectionElement : NetworkSelectionElement)
    (podDeleted releaseFromAllocator : bool) : M (PodAllocator S I K) error :=
  a ← gets id;
  let podAnnotation :=
    match (UnmarshalPodAnnotation (Annotations pod) nad).1 with
    | Some annotation => annotation
    | None => emptyPodAnnotation
    end in
  let uid := UID pod in
  let hasIPAM := DoesNetworkRequireIPAM (netInfo a) in
  let hasIDAllocation := DoesNetworkRequireTunnelIDs (netInfo a) in
  let hasPersistentIPs :=
    if bool_decide (IPAMClaimReference networkSelectionElement ≠ "") then
      is_nil (GetPersistentIPs (watchFactory a) (Namespace pod)
                (IPAMClaimReference networkSelectionElement)).2
    else false in
  if negb hasIPAM && negb hasIDAllocation then mret nil
  else
    let doRelease := releaseFromAllocator && negb (isPodReleased nad uid a) in
    let doReleaseIDs := doRelease && hasIDAllocation in
    let doReleaseIPs := doRelease && hasIPAM && negb hasPersistentIPs in
    (if doReleaseIDs
     then idAllocator_ReleaseID (podIdAllocationName nad uid)
     else mret ());;
    err ← (if doReleaseIPs
           then ipAllocator_ReleaseIPs (GetNetworkName (netInfo a)) (IPs podAnnotation)
           else mret nil);
    match err with
    | Some e =>
        mret (Some (Wrapf "failed to release ips %v for pod %s/%s and nad %s: %w" e))
    | None =>
        (if podDeleted
         then deleteReleasedPod nad (UID pod)
         else addReleasedPod nad (UID pod));;
        mret nil
    end.

(** What the release path reads of its arguments: the addresses of the
    allocation annotation (none when it is missing), and whether the
    attachment names a claim that is still there. *)
Definition annotatedIPs (pod : Pod) (nad : string) : list IPNet :=
  match (UnmarshalPodAnnotation (Annotations pod) nad).1 with
  | Some annotation => IPs annotation
  | None => []
  end.

Definition claimIsLive (pod : Pod) (network : NetworkSelectionElement)
    (a : PodAllocator S I K) : bool :=
  bool_decide (IPAMClaimReference network ≠ "")
  && is_nil (GetPersistentIPs (watchFactory a) (Namespace pod)
               (IPAMClaimReference network)).2.

(** ** Allocation *)

Definition findIPAMClaim (pod : Pod) (network : NetworkSelectionElement)
  : M (PodAllocator S I K) (option IPAMClaim * error) :=
  if bool_decide (IPAMClaimReference network ≠ "") then
    a ← gets id;
    let '(claim, err) :=
      GetPersistentIPs (watchFactory a) (Namespace pod) (IPAMClaimReference network) in
    match err with
    | Some _ => mret (None, Some (Errorf "failed to get ipamLease %q"))
    | None => mret (claim, nil)
    end
  else mret (None, nil).

(** [a.podAnnotationAllocator.AllocatePodAnnotationWithTunnelID(...)], on the
    stores of [a]. *)
Definition podAnnotationAllocator_Allocate (ipAllocator idAllocator : option string)
    (pod : Pod) (network : NetworkSelectionElement) (ipamClaim : option IPAMClaim)
    (reallocate : bool)
  : M (PodAllocator S I K) (option Pod * PodAnnotation + error_value) :=
  λ a, let '(res, (s', i', k')) :=
         AllocatePodAnnotationWithTunnelID ipAllocator idAllocator pod network
           ipamClaim reallocate (pod.ipAllocator a, pod.idAllocator a, kube a) in
       Some (res, set_kube k' (set_idAllocator i' (set_ipAllocator s' a))).

(** [persistentips.NewPersistentIPsAllocator(a.kube, ipAllocator)] shares the
    API client and the subnet store with [a]: a method of it runs on them and
    what it leaves is what [a] holds afterwards. *)
Definition on_persistentIPsAllocator {A : Type} (name : string)
    (m : M (persistentips.Allocator S K) A) : M (PodAllocator S I K) A :=
  λ a, match ipAllocator a with
       | None => None
       | Some s =>
           match m (persistentips.NewPersistentIPsAllocator (kube a) (ForSubnet name s)) with
           | None => None
           | Some (v, p) =>
               Some (v, set_kube (persistentips.kube p)
                          (set_ipAllocator
                             (Some (subnetStore (persistentips.ipAllocator p))) a))
           end
       end.

Definition allocatePodOnNAD (pod : Pod) (nad : string) (network : NetworkSelectionElement)
  : M (PodAllocator S I K) error :=
  a ← gets id;
  let hasIPAM := DoesNetworkRequireIPAM (netInfo a) in
  ipAllocator ← (if hasIPAM then
                   match pod.ipAllocator a with
                   | Some _ => mret (Some (GetNetworkName (netInfo a)))
                   | None => panic
                   end
                 else mret None);
  idAllocator ← (if DoesNetworkRequireTunnelIDs (netInfo a) then
                   match pod.idAllocator a with
                   | Some _ => mret (Some (podIdAllocationName nad (UID pod)))
                   | None => panic
                   end
                 else mret None);
  '(ipamClaim, err) ← (if hasIPAM then findIPAMClaim pod network
                       else mret (None, nil));
  match err with
  | Some e => mret (Some e)
  | None =>
      let dontReallocate := false in
      res ← podAnnotationAllocator_Allocate ipAllocator idAllocator pod network
              ipamClaim dontReallocate;
      match res with
      | inr e => mret (Some e)
      | inl (updatedPod, podAnnotation) =>
          err ← match ipamClaim, ipAllocator with
                | Some claim, Some name =>
                    on_persistentIPsAllocator name
                      (persistentips.Reconcile claim (StringSlice (IPs podAnnotation)))
                | _, _ => mret nil
                end;
          match err with
          | Some e => mret (Some e)
          | None => mret nil
          end
      end
  end.

(** ** Reconcile *)

(** [pod] is [new] when there is one and [old] otherwise; with neither it
    stays nil, and the first field read of [util.PodScheduled(pod)] or
    [util.PodCompleted(pod)] panics. *)
Definition event_pod (old new : option Pod) : option Pod :=
  match new with
  | Some p => Some p
  | None => old
  end.

Definition reconcileForNAD (old new : option Pod) (nad : string)
    (network : NetworkSelectionElement) (releaseIPsFromAllocator : bool)
  : M (PodAllocator S I K) error :=
  match event_pod old new with
  | None => panic
  | Some pod =>
      let podDeleted := is_nil new in
      let podCompleted := PodCompleted pod in
      if podCompleted || podDeleted then
        releasePodOnNAD pod nad network podDeleted releaseIPsFromAllocator
      else allocatePodOnNAD pod nad network
  end.

Definition reconcile (old new : option Pod) (releaseFromAllocator : bool)
  : M (PodAllocator S I K) error :=
  match event_pod old new with
  | None => panic
  | Some pod =>
      let podScheduled := PodScheduled pod in
      let podWantsHostNetwork := PodWantsHostNetwork pod in
      if negb podScheduled || podWantsHostNetwork then mret nil
      else
        a ← gets id;
        let '(onNetwork, networkMap, err) :=
          GetPodNADToNetworkMapping pod (netInfo a) in
        match err with
        | Some e => mret (Some (Wrapf "failed to get NAD to network mapping: %w" e))
        | None =>
            if negb onNetwork then mret nil
            else
              for_each_until_error
                (λ '(nadName, network),
                   reconcileForNAD old new nadName network releaseFromAllocator)
                networkMap
        end
  end.

Definition Reconcile (old new : option Pod) : M (PodAllocator S I K) error :=
  let releaseFromAllocator := true in
  reconcile old new releaseFromAllocator.

(** The state machine of the specification, in its words: "[Unscheduled] (no
    node assigned yet) -> no-op; [HostNetworked] -> no-op ...; [Active]
    (scheduled, not host-networked, not completed, not deleted) ->
    Allocate; [Completed] or [Deleted] -> Release", the pod being deleted
    when the new snapshot is absent. *)
Inductive Path := NoOp | Release | Allocate.

Definition classify (new : option Pod) (pod : Pod) : Path :=
  if negb (PodScheduled pod) then NoOp
  else if PodWantsHostNetwork pod then NoOp
  else if PodCompleted pod || is_nil new then Release
  else Allocate.

(** What [reconcile] does with a path once the guards on the pod are passed:
    the attachments of the pod to the network are resolved and the path is
    run on each in turn, up to the first error. *)
Definition onAttachments (pod : Pod)
    (path : string → NetworkSelectionElement → M (PodAllocator S I K) error)
  : M (PodAllocator S I K) error :=
  λ a, match GetPodNADToNetworkMapping pod (netInfo a) with
       | (_, _, Some e) =>
           Some (Some (Wrapf "failed to get NAD to network mapping: %w" e), a)
       | (false, _, None) => Some (nil, a)
       | (true, networkMap, None) =>
           for_each_until_error (λ '(nad, network), path nad network) networkMap a
       end.

(** The release-path traversals live events make for one workload on one
    attachment, in the order of delivery: its updates while it is completed,
    then its deletion, when there is one. *)
Definition liveReleases (nad : string)
    (updates : list (Pod * NetworkSelectionElement))
    (deletion : option (Pod * NetworkSelectionElement))
  : M (PodAllocator S I K) error :=
  for_each_until_error
    (λ '(pod, network, podDeleted), releasePodOnNAD pod nad network podDeleted true)
    (((λ event, (event, false)) <$> updates)
       ++ match deletion with
          | Some event => [(event, true)]
          | None => []
          end).

(** [Sync]: a failed reconcile is logged and the loop goes on. *)
Fixpoint Sync (objs : list Object) : M (PodAllocator S I K) error :=
  let releaseFromAllocator := false in
  match objs with
  | [] => mret nil
  | PodObject pod :: objs' =>
      reconcile None (Some pod) releaseFromAllocator;;
      Sync objs'
  | _ :: objs' => Sync objs'
  end.

End allocator.

(** An allocator as [NewPodAllocator] and [Init] leave it: the allocators
    the network requires are set. *)
Definition initialised {U : UtilPkg} {S I K : Type} (a : PodAllocator S I K) : Prop :=
  (DoesNetworkRequireIPAM (netInfo a) = true → is_Some (ipAllocator a))
  ∧ (DoesNetworkRequireTunnelIDs (netInfo a) = true → is_Some (idAllocator a)).

(** The annotation allocator works through the named allocators it is
    handed and cannot reach the fields of the pod allocator: an allocator
    that is set stays set. *)
Definition keeps_allocators {S I K : Type} (PA : PodAnnotationAllocator S I K) : Prop :=
  ∀ ipAllocator idAllocator pod network ipamClaim reallocate s i k,
    let st := (AllocatePodAnnotationWithTunnelID ipAllocator idAllocator pod network
                 ipamClaim reallocate (s, i, k)).2 in
    (is_Some s → is_Some st.1.1) ∧ (is_Some i → is_Some st.1.2).

(** The ledger holds no empty set: a network attachment maps to the pods
    released on it, or is absent. *)
Definition ledgerPruned {S I K : Type} (a : PodAllocator S I K) : Prop :=
  ∀ nad released, releasedPods a !! nad = Some released → released ≠ ∅.

(** What every method keeps: the network configuration, the informer, and a
    ledger without empty sets. *)
Definition keeps_invariants {S I K : Type} (a a' : PodAllocator S I K) : Prop :=
  netInfo a' = netInfo a
  ∧ watchFactory a' = watchFactory a
  ∧ (ledgerPruned a → ledgerPruned a').

(** Whether a string has the character [/]. *)
Fixpoint containsSlash (s : string) : bool :=
  match s with
  | EmptyString => false
  | String c s' => if bool_decide (String c "" = "/") then true else containsSlash s'
  end.

(** The same allocators with another [ReleaseIPs], another [ReleaseID]. *)
Definition with_ReleaseIPs {S : Type} (release : string → list IPNet → S → error * S)
    (SA : SubnetAllocator S) : SubnetAllocator S :=
  Build_SubnetAllocator S (@NewAllocator S SA) (@AddOrUpdateSubnet S SA)
    (@AllocateIPs S SA) release.

Definition with_ReleaseID {I : Type} (release : string → I → I)
    (IA : IDAllocator I) : IDAllocator I :=
  Build_IDAllocator I (@NewIDAllocator I IA) (@ReserveID I IA) release.

End pod.

(** * Collaborators modelled from the specification

    The packages [id], [subnet], [kube], [util] and the annotation allocator
    are not among the files embedded above. The module below models them from
    the specification, to run the two allocators on concrete clusters and to
    state what the specification says about the ID space. *)

Module model.

(** ** Tunnel IDs *)

(** Modelled from the spec: the store of the tunnel-ID allocator of package
    [id], whose code is outside the two files. The allocator "owns a bounded
    integer namespace per network" and "maps symbolic names to reserved
    integers"; a tunnel ID is "an integer in [0, MaxID]". *)
Record IDStore := {
  maxID : Z;
  nameIdMap : gmap string Z;
}.

Definition usedIDs (st : IDStore) : gset Z := map_img (nameIdMap st).

(** Modelled from the spec: [id.NewIDAllocator], an empty namespace over
    [0, MaxID]. *)
Definition NewIDAllocator (name : string) (maxIds : Z) : option IDStore * error :=
  (Some {| maxID := maxIds; nameIdMap := ∅ |}, nil).

(** Modelled from the spec: [ReserveID(name, id)], whose contract "mirrors
    4.1": it reserves a specific ID and "fails with [AlreadyAllocatedError] if
    taken"; a name that holds this very ID already has it. *)
Definition ReserveID (name : string) (id : Z) (st : IDStore) : error * IDStore :=
  match nameIdMap st !! name with
  | Some v =>
      if bool_decide (v = id) then (nil, st)
      else (Some (Sentinel "AlreadyAllocatedError"), st)
  | None =>
      if bool_decide (0 ≤ id ≤ maxID st)%Z then
        if bool_decide (id ∈ usedIDs st)
        then (Some (Sentinel "AlreadyAllocatedError"), st)
        else (nil, {| maxID := maxID st; nameIdMap := <[name := id]> (nameIdMap st) |})
      else (Some (Sentinel "InvalidRangeError"), st)
  end.

(** Modelled from the spec: [ReleaseID(name)]; "[ReleaseID] on an unknown
    name is a no-op". *)
Definition ReleaseID (name : string) (st : IDStore) : IDStore :=
  {| maxID := maxID st; nameIdMap := delete name (nameIdMap st) |}.

(** Modelled from the spec: [AllocateNext(name) -> id] "picks a free address
    using a deterministic or pseudo-random policy (policy choice is an
    implementation detail ...)" and "fails with [PoolExhaustedError] when no
    free address in range". The policy is the argument [pick]: from [MaxID]
    and the IDs in use, the ID to hand out. A name that holds an ID keeps
    it. *)
Definition AllocateNext (pick : Z → gset Z → option Z) (name : string) (st : IDStore)
  : option Z * error * IDStore :=
  match nameIdMap st !! name with
  | Some v => (Some v, nil, st)
  | None =>
      match pick (maxID st) (usedIDs st) with
      | Some id =>
          (Some id, nil,
           {| maxID := maxID st; nameIdMap := <[name := id]> (nameIdMap st) |})
      | None => (None, Some (Sentinel "PoolExhaustedError"), st)
      end
  end.

(** A policy is sound when what it picks is in range and free. *)
Definition sound_policy (pick : Z → gset Z → option Z) : Prop :=
  ∀ m used id, pick m used = Some id → (0 ≤ id ≤ m)%Z ∧ id ∉ used.

(** The first free ID from 0 upwards. *)
Definition first_fit (m : Z) (used : gset Z) : option Z :=
  snd <$> list_find (λ id, id ∉ used) (seqZ 0 (m + 1)).

Definition idAllocator : IDAllocator IDStore :=
  Build_IDAllocator IDStore NewIDAllocator ReserveID ReleaseID.

(** What the pod allocator asks of the ID allocator on behalf of workloads:
    every request is made under [podIdAllocationName nad uid], by the release
    path ([ReleaseID]) or through the named allocator [ForName] handed to the
    annotation allocator. *)
Inductive IDRequest :=
| AllocateFor (nad uid : string)
| ReserveFor (nad uid : string) (id : Z)
| ReleaseFor (nad uid : string).

(** Serves the requests in turn; returns the IDs handed to workloads. *)
Fixpoint serve (pick : Z → gset Z → option Z) (reqs : list IDRequest) (st : IDStore)
  : list Z * IDStore :=
  match reqs with
  | [] => ([], st)
  | AllocateFor nad uid :: reqs' =>
      let '(id, _, st') := AllocateNext pick (pod.podIdAllocationName nad uid) st in
      let '(ids, st'') := serve pick reqs' st' in
      (match id with Some v => v :: ids | None => ids end, st'')
  | ReserveFor nad uid id :: reqs' =>
      let '(err, st') := ReserveID (pod.podIdAllocationName nad uid) id st in
      let '(ids, st'') := serve pick reqs' st' in
      (match err with None => id :: ids | Some _ => ids end, st'')
  | ReleaseFor nad uid :: reqs' =>
      serve pick reqs' (ReleaseID (pod.podIdAllocationName nad uid) st)
  end.

(** The ID 0 is held by the name ["zero"] and by no other name. *)
Definition zero_reserved (st : IDStore) : Prop :=
  nameIdMap st !! "zero" = Some 0%Z
  ∧ ∀ name, nameIdMap st !! name = Some 0%Z → name = "zero".

(** ** Address pools *)

(** Modelled from the spec: the subnet allocator of package [subnet], whose
    code is outside the two files. A pool is "identified by network name; holds one or more
    address ranges (CIDR-like) plus an explicit exclusion set"; an address is
    free or allocated. Addresses are taken as 32-bit. *)
Record Pool := {
  ranges : list IPNet;
  exclusions : list IPNet;
  allocated : gset N;
}.

Definition contains (cidr : IPNet) (addr : N) : bool :=
  let shift := N.of_nat (32 - ipMaskLen cidr) in
  (N.shiftr addr shift =? N.shiftr (ipAddr cidr) shift)%N.

Definition allocatable (p : Pool) (addr : N) : bool :=
  existsb (λ r, contains r addr) (ranges p)
  && negb (existsb (λ e, contains e addr) (exclusions p)).

(** Modelled from the spec: "[Reserve(network, address)]: allocates a
    specific address ...; fails with [AlreadyAllocatedError] if taken";
    "[Reserve] of an address outside all configured ranges always fails;
    [Reserve] of an address inside an exclusion always fails". *)
Definition Reserve (ip : IPNet) (p : Pool) : error * Pool :=
  if negb (allocatable p (ipAddr ip)) then (Some (Sentinel "InvalidRangeError"), p)
  else if bool_decide (ipAddr ip ∈ allocated p)
       then (Some (Sentinel "AlreadyAllocatedError"), p)
       else (nil, {| ranges := ranges p; exclusions := exclusions p;
                     allocated := {[ipAddr ip]} ∪ allocated p |}).

(** Modelled from the spec: [AllocateIPs], the reservation of several
    addresses: they are reserved in turn, up to the first that fails. *)
Fixpoint ReserveAll (ips : list IPNet) (p : Pool) : error * Pool :=
  match ips with
  | [] => (nil, p)
  | ip :: ips' =>
      match Reserve ip p with
      | (Some e, p') => (Some e, p')
      | (None, p') => ReserveAll ips' p'
      end
  end.

Definition AllocateIPs (name : string) (ips : list IPNet) (s : gmap string Pool)
  : error * gmap string Pool :=
  match s !! name with
  | None => (Some (Sentinel "SubnetNotFound"), s)
  | Some p => let '(err, p') := ReserveAll ips p in (err, <[name := p']> s)
  end.

(** Modelled from the spec: "[Release(network, addresses...)]: returns
    addresses to the free set; releasing a not-currently-allocated address is
    a no-op (never errors)". *)
Definition ReleaseIPs (name : string) (ips : list IPNet) (s : gmap string Pool)
  : error * gmap string Pool :=
  match s !! name with
  | None => (nil, s)
  | Some p =>
      (nil, <[name := {| ranges := ranges p; exclusions := exclusions p;
                         allocated := allocated p ∖ list_to_set (ipAddr <$> ips) |}]> s)
  end.

(** Modelled from the spec: "[AddOrUpdatePool(network, ranges,
    exclusions...)]: merges new ranges into the pool for [network]; fails
    with [InvalidRangeError] if exclusions lie outside all ranges;
    idempotent". *)
Definition AddOrUpdateSubnet (name : string) (subnets excludes : list IPNet)
    (s : gmap string Pool) : error * gmap string Pool :=
  let old := default {| ranges := []; exclusions := []; allocated := ∅ |} (s !! name) in
  let merged := list_union (ranges old) subnets in
  if forallb (λ e, existsb (λ r, contains r (ipAddr e)) merged) excludes then
    (nil, <[name := {| ranges := merged;
                       exclusions := list_union (exclusions old) excludes;
                       allocated := allocated old |}]> s)
  else (Some (Sentinel "InvalidRangeError"), s).

Definition subnetAllocator : SubnetAllocator (gmap string Pool) :=
  Build_SubnetAllocator (gmap string Pool) ∅ AddOrUpdateSubnet AllocateIPs ReleaseIPs.

(** Modelled from the spec: [ipam.IsErrAllocated] recognises
    [AlreadyAllocatedError], also under errors that wrap it. *)
Fixpoint errorsIsAllocated (e : error_value) : bool :=
  match e with
  | Sentinel name => bool_decide (name = "AlreadyAllocatedError")
  | Errorf _ => false
  | Wrapf _ cause => errorsIsAllocated cause
  end.

(** ** The API server *)

(** Modelled from the spec: the persisted-write client,
    "[UpdateClaimStatus(claim, ips) -> error]". The state is the recorded
    status of every claim, by namespace and name. *)
Definition UpdateIPAMLeaseIPs (claim : IPAMClaim) (ips : list string)
    (k : gmap (string * string) (list string))
  : error * gmap (string * string) (list string) :=
  match k !! (claimNamespace claim, claimName claim) with
  | None => (Some (Sentinel "NotFound"), k)
  | Some _ => (nil, <[(claimNamespace claim, claimName claim) := ips]> k)
  end.

Definition kubeOVN : KubeOVN (gmap (string * string) (list string)) :=
  Build_KubeOVN (gmap (string * string) (list string)) UpdateIPAMLeaseIPs.

(** ** Package util *)

(** What a cluster fixes for package [util]: the attachments of a pod to the
    network, and the codecs of annotations and addresses. *)
Record Fixture := {
  attachments : Pod → bool * list (string * NetworkSelectionElement) * error;
  decodeAnnotation : string → string → option PodAnnotation;
  parseIPNet : string → option IPNet;
  formatIPNet : IPNet → string;
}.

Fixpoint parseIPNets (parse : string → option IPNet) (strs : list string)
  : list IPNet * error :=
  match strs with
  | [] => ([], nil)
  | str :: strs' =>
      match parse str with
      | None => ([], Some (Sentinel "ParseError"))
      | Some ipnet =>
          match parseIPNets parse strs' with
          | (_, Some e) => ([], Some e)
          | (ipnets, None) => (ipnet :: ipnets, nil)
          end
      end
  end.

(** Modelled from the spec: a pod is unscheduled when "no node assigned yet";
    the network configuration provider gives "per-network flags
    [RequiresIPAM() bool], [RequiresTunnelIDs() bool]", taken here from the
    subnets and the topology of the network. The allocation annotation of a
    pod is the value of its annotation [k8s.ovn.org/pod-networks]. *)
Definition util (fx : Fixture) (maxTunnelKey : Z) : UtilPkg :=
  {| PodScheduled pod := bool_decide (NodeName pod ≠ "");
     PodWantsHostNetwork pod := HostNetwork pod;
     PodCompleted pod :=
       bool_decide (Phase pod = "Succeeded") || bool_decide (Phase pod = "Failed");
     DoesNetworkRequireIPAM ni := bool_decide (Subnets ni ≠ []);
     DoesNetworkRequireTunnelIDs ni := bool_decide (TopologyType ni = "layer2");
     GetPodNADToNetworkMapping pod _ := attachments fx pod;
     UnmarshalPodAnnotation annotations nad :=
       match annotations !! "k8s.ovn.org/pod-networks" with
       | None => (None, Some (Sentinel "AnnotationNotSet"))
       | Some text =>
           match decodeAnnotation fx text nad with
           | None => (None, Some (Sentinel "ParseError"))
           | Some annotation => (Some annotation, nil)
           end
       end;
     ParseIPNets := parseIPNets (parseIPNet fx);
     StringSlice ips := formatIPNet fx <$> ips;
     IsErrAllocated := errorsIsAllocated;
     MaxLogicalPortTunnelKey := maxTunnelKey |}.

(** ** The annotation allocator *)

(** Modelled from the spec: steps 3 and 6 of the allocate path. "Attempt to
    reuse addresses already present in the workload's current annotation for
    this attachment"; if reuse fails "the default is fail-outright". "Allocate
    (or reserve) the tunnel ID keyed by a name unique to (network-attachment,
    workload-identity)". Fresh addresses, MAC, gateways and routes are left
    out; the pod is not written, so no updated pod is returned. *)
Definition AllocatePodAnnotationWithTunnelID (U : UtilPkg)
    (ipAllocator idAllocator : option string) (pod : Pod)
    (network : NetworkSelectionElement) (ipamClaim : option IPAMClaim)
    (reallocate : bool)
    (st : option (gmap string Pool) * option IDStore * gmap (string * string) (list string))
  : (option Pod * PodAnnotation + error_value)
    * (option (gmap string Pool) * option IDStore * gmap (string * string) (list string)) :=
  let '(s, i, k) := st in
  let nad := nseNamespace network ++ "/" ++ nseName network in
  let annotation :=
    default emptyPodAnnotation (UnmarshalPodAnnotation (Annotations pod) nad).1 in
  let '(err, s') :=
    match ipAllocator, s with
    | Some name, Some pools =>
        let '(err, pools') := AllocateIPs name (IPs annotation) pools in
        (err, Some pools')
    | _, _ => (nil, s)
    end in
  match err with
  | Some e => (inr e, (s', i, k))
  | None =>
      let '(id, err, i') :=
        match idAllocator, i with
        | Some name, Some ids =>
            let '(id, err, ids') := AllocateNext first_fit name ids in
            (id, err, Some ids')
        | _, _ => (None, nil, i)
        end in
      match err with
      | Some e => (inr e, (s', i', k))
      | None =>
          (inl (None, {| IPs := IPs annotation; MAC := MAC annotation;
                         Gateways := Gateways annotation; Routes := Routes annotation;
                         TunnelID := default 0%Z id |}),
           (s', i', k))
      end
  end.

Definition podAnnotationAllocator (U : UtilPkg)
  : PodAnnotationAllocator (gmap string Pool) IDStore (gmap (string * string) (list string)) :=
  Build_PodAnnotationAllocator _ _ _ (AllocatePodAnnotationWithTunnelID U).

End model.

(** * A cluster to run the allocators on *)

Module example.

Definition ipv4 (a b c d : N) : N := (((a * 256 + b) * 256 + c) * 256 + d)%N.

Definition cidr (addr : N) (len : nat) : IPNet := {| ipAddr := addr; ipMaskLen := len |}.

(** The network: layer 2, with the subnet 192.168.200.0/24. *)
Definition blue : NetInfo :=
  {| GetNetworkName := "blue";
     TopologyType := "layer2";
     Subnets := [cidr (ipv4 192 168 200 0) 24];
     ExcludeSubnets := [] |}.

(** A network with neither subnets nor tunnel IDs. *)
Definition bare : NetInfo :=
  {| GetNetworkName := "bare";
     TopologyType := "localnet";
     Subnets := [];
     ExcludeSubnets := [] |}.

Definition attachment : string * NetworkSelectionElement :=
  ("ns1/blue", {| nseName := "blue"; nseNamespace := "ns1"; IPAMClaimReference := "" |}).

Definition claimedAttachment : string * NetworkSelectionElement :=
  ("ns1/blue",
   {| nseName := "blue"; nseNamespace := "ns1"; IPAMClaimReference := "claim1" |}).

(** The pod [uid-1] of namespace [ns1], with the address 192.168.200.2 in its
    annotation, while it runs and once it has succeeded. *)
Definition worker (phase : string) : Pod :=
  {| Name := "worker"; Namespace := "ns1"; UID := "uid-1";
     Annotations := {[ "k8s.ovn.org/pod-networks" := "worker-on-blue" ]};
     NodeName := "node1"; HostNetwork := false; Phase := phase |}.

(** The same pod after its annotation was removed by hand. *)
Definition strippedWorker : Pod :=
  {| Name := "worker"; Namespace := "ns1"; UID := "uid-1";
     Annotations := ∅;
     NodeName := "node1"; HostNetwork := false; Phase := "Succeeded" |}.

(** A succeeded pod with no attachment to the network. *)
Definition stranger : Pod :=
  {| Name := "stranger"; Namespace := "ns2"; UID := "uid-2";
     Annotations := ∅;
     NodeName := "node1"; HostNetwork := false; Phase := "Succeeded" |}.

Definition fixture : model.Fixture :=
  {| model.attachments pod :=
       if bool_decide (UID pod = "uid-1") then (true, [attachment], nil)
       else (false, [], nil);
     model.decodeAnnotation text nad :=
       if bool_decide (text = "worker-on-blue") && bool_decide (nad = "ns1/blue")
       then Some {| IPs := [cidr (ipv4 192 168 200 2) 24]; MAC := "0a:58:c0:a8:c8:02";
                    Gateways := []; Routes := []; TunnelID := 0 |}
       else None;
     model.parseIPNet text :=
       if bool_decide (text = "192.168.200.2/24") then Some (cidr (ipv4 192 168 200 2) 24)
       else if bool_decide (text = "192.168.200.3/24")
            then Some (cidr (ipv4 192 168 200 3) 24)
       else if bool_decide (text = "10.0.0.9/24") then Some (cidr (ipv4 10 0 0 9) 24)
       else None;
     model.formatIPNet ip :=
       if bool_decide (ip = cidr (ipv4 192 168 200 2) 24) then "192.168.200.2/24"
       else if bool_decide (ip = cidr (ipv4 192 168 200 3) 24) then "192.168.200.3/24"
       else "10.0.0.9/24" |}.

Definition util : UtilPkg := model.util fixture 255.

Definition claim1 (ips : list string) : IPAMClaim :=
  {| claimName := "claim1"; claimNamespace := "ns1"; StatusIPs := ips |}.

Definition claim2 (ips : list string) : IPAMClaim :=
  {| claimName := "claim2"; claimNamespace := "ns1"; StatusIPs := ips |}.

(** The informer knows [claim1] and no other claim. *)
Definition informer : WatchFactory :=
  {| GetPersistentIPs namespace name :=
       if bool_decide (namespace = "ns1") && bool_decide (name = "claim1")
       then (Some (claim1 ["192.168.200.2/24"]), nil)
       else (None, Some (Sentinel "NotFound")) |}.

Definition apiServer : gmap (string * string) (list string) :=
  {[ ("ns1", "claim1") := ["192.168.200.2/24"] ]}.

Abbreviation Cluster :=
  (pod.PodAllocator (gmap string model.Pool) model.IDStore
     (gmap (string * string) (list string))).

#[local] Existing Instances util model.subnetAllocator model.idAllocator model.kubeOVN.
#[local] Instance annotationAllocator
  : PodAnnotationAllocator (gmap string model.Pool) model.IDStore
      (gmap (string * string) (list string)) :=
  model.podAnnotationAllocator util.

(** The state a method leaves. *)
Definition after (m : M Cluster error) (a : Cluster) : Cluster :=
  match m a with
  | Some (_, a') => a'
  | None => a
  end.

(** The allocator of [blue] after [Init]; after the running worker was
    reconciled, which takes 192.168.200.2 and a tunnel ID for it; and after
    the event of its completion. *)
Definition initial : Cluster :=
  after pod.Init (pod.NewPodAllocator blue apiServer informer).

Definition running : Cluster :=
  after (pod.Reconcile None (Some (worker "Running"))) initial.

Definition completed : Cluster :=
  after (pod.Reconcile (Some (worker "Running")) (Some (worker "Succeeded"))) running.

(** The allocator of [bare]. *)
Definition bareCluster : Cluster :=
  after pod.Init (pod.NewPodAllocator bare apiServer informer).

(** The two stores of [running]. *)
Definition runningPools : gmap string model.Pool :=
  default ∅ (pod.ipAllocator running).


(** The claim bridge on the subnet store of [initial]. *)
Definition bridge
  : persistentips.Allocator (gmap string model.Pool) (gmap (string * string) (list string)) :=
  persistentips.NewPersistentIPsAllocator apiServer
    (ForSubnet "blue" (default ∅ (pod.ipAllocator initial))).

(** Claims to replay: one with an address, one with none, and one whose
    address is in no subnet of [blue]. *)
Definition replayedClaims : list Object :=
  [IPAMClaimObject (claim1 ["192.168.200.2/24"]);
   OtherObject "*v1.Node";
   IPAMClaimObject (claim2 [])].

Definition foreignClaims : list Object :=
  [IPAMClaimObject (claim1 ["192.168.200.2/24"]);
   IPAMClaimObject (claim2 ["10.0.0.9/24"])].

(** The allocator after the event of the deletion of the worker. *)
Definition deleted : Cluster :=
  after (pod.Reconcile (Some (worker "Succeeded")) None) completed.

(** An attachment that names a claim the informer does not know. *)
Definition orphanAttachment : string * NetworkSelectionElement :=
  ("ns1/blue",
   {| nseName := "blue"; nseNamespace := "ns1"; IPAMClaimReference := "claim9" |}).

(** What the annotation allocator returns for the running worker with
    [claim1], from [initial]. *)
Definition claimedAllocation :=
  AllocatePodAnnotationWithTunnelID (Some "blue")
    (Some (pod.podIdAllocationName "ns1/blue" "uid-1")) (worker "Running")
    claimedAttachment.2 (Some (claim1 ["192.168.200.2/24"])) false
    (pod.ipAllocator initial, pod.idAllocator initial, pod.kube initial).

Definition claimedAnnotation : PodAnnotation :=
  match claimedAllocation.1 with
  | inl (_, annotation) => annotation
  | inr _ => emptyPodAnnotation
  end.

End example.

(** * Properties *)

(** ** The claim bridge *)

Section persistentips_properties.
Context {U : UtilPkg} {S K : Type} {SA : SubnetAllocator S} {KO : KubeOVN K}.

(** C4. A claim whose status already holds addresses is left alone:
    [Reconcile] returns nil and the API server is not written, whatever
    [ips] is. *)
Theorem Reconcile_keeps_recorded_status
    (ipamClaim : IPAMClaim) (ips : list string) (a : persistentips.Allocator S K) :
  0 < length (StatusIPs ipamClaim) →
  persistentips.Reconcile ipamClaim ips a = Some (nil, a).
Proof.
  intros Hlen. unfold persistentips.Reconcile.
  by rewrite bool_decide_eq_true_2.
Qed.

Lemma Reconcile_total
    (ipamClaim : IPAMClaim) (ips : list string) (a : persistentips.Allocator S K) :
  ∃ err k', persistentips.Reconcile ipamClaim ips a =
              Some (err, {| persistentips.kube := k';
                            persistentips.ipAllocator := persistentips.ipAllocator a |}).
Proof.
  unfold persistentips.Reconcile, persistentips.kube_UpdateIPAMLeaseIPs.
  case_bool_decide; run; [destruct a; by eexists _, _|].
  destruct (UpdateIPAMLeaseIPs ipamClaim ips (persistentips.kube a)) as [[e|] k'];
    by eexists _, _.
Qed.



End persistentips_properties.

(** ** The release ledger *)

Section pod_properties.
Context {U : UtilPkg} {S I K : Type}.
Context {SA : SubnetAllocator S} {IA : IDAllocator I} {KO : KubeOVN K}.
Context {PA : PodAnnotationAllocator S I K}.

Implicit Types (a : pod.PodAllocator S I K) (nad uid : string).

Lemma isPodReleased_addReleasedPod nad uid a :
  ∃ a', pod.addReleasedPod nad uid a = Some ((), a')
        ∧ a' = pod.set_releasedPods (pod.releasedPods a') a
        ∧ pod.isPodReleased nad uid a' = true.
Proof.
  unfold pod.addReleasedPod, pod.isPodReleased. run.
  eexists; split; [done|].
  destruct (pod.releasedPods a !! nad) as [released|]; simpl;
    rewrite lookup_insert_eq; (split; [done|]);
    apply bool_decide_eq_true_2; set_solver.
Qed.

Lemma isPodReleased_deleteReleasedPod nad uid a :
  ∃ a', pod.deleteReleasedPod nad uid a = Some ((), a')
        ∧ a' = pod.set_releasedPods (pod.releasedPods a') a
        ∧ pod.isPodReleased nad uid a' = false.
Proof.
  unfold pod.deleteReleasedPod, pod.isPodReleased. run.
  eexists; split; [done|].
  destruct (pod.releasedPods a !! nad) as [released|] eqn:Hnad; simpl.
  - case_bool_decide as Hsize; simpl.
    + rewrite lookup_delete_eq. by destruct a.
    + rewrite lookup_insert_eq. split; [done|].
      apply bool_decide_eq_false_2.
      intros [_ Hn]%elem_of_difference. apply Hn. by apply elem_of_singleton.
  - rewrite Hnad. by destruct a.
Qed.

(** The release path, when it returns: it leaves the network configuration,
    the informer cache and the API server alone; what it does to the two
    allocators is fixed by the three flags [doRelease], [doReleaseIDs] and
    [doReleaseIPs]; and when it returns nil on a network with IPAM or tunnel
    IDs, the ledger holds the pod if and only if the pod is not deleted. *)
Lemma releasePodOnNAD_returns pod nad network podDeleted releaseFromAllocator a err a' :
  pod.releasePodOnNAD pod nad network podDeleted releaseFromAllocator a = Some (err, a') →
  let hasIPAM := DoesNetworkRequireIPAM (pod.netInfo a) in
  let hasIDAllocation := DoesNetworkRequireTunnelIDs (pod.netInfo a) in
  let doRelease := releaseFromAllocator && negb (pod.isPodReleased nad (UID pod) a) in
  pod.netInfo a' = pod.netInfo a
  ∧ pod.watchFactory a' = pod.watchFactory a
  ∧ pod.kube a' = pod.kube a
  ∧ pod.idAllocator a' =
      (if doRelease && hasIDAllocation
       then ReleaseID (pod.podIdAllocationName nad (UID pod)) <$> pod.idAllocator a
       else pod.idAllocator a)
  ∧ pod.ipAllocator a' =
      (if doRelease && hasIPAM && negb (pod.claimIsLive pod network a)
       then (λ s, (ReleaseIPs (GetNetworkName (pod.netInfo a))
                     (pod.annotatedIPs pod nad) s).2) <$> pod.ipAllocator a
       else pod.ipAllocator a)
  ∧ (err = nil → hasIPAM || hasIDAllocation = true →
     pod.isPodReleased nad (UID pod) a' = negb podDeleted)
  ∧ (hasIPAM || hasIDAllocation = false → a' = a).
Proof.
  unfold pod.releasePodOnNAD, pod.claimIsLive, pod.annotatedIPs. run.
  replace (if bool_decide (IPAMClaimReference network ≠ "")
           then is_nil (GetPersistentIPs (pod.watchFactory a) (Namespace pod)
                          (IPAMClaimReference network)).2
           else false)
    with (bool_decide (IPAMClaimReference network ≠ "")
          && is_nil (GetPersistentIPs (pod.watchFactory a) (Namespace pod)
                       (IPAMClaimReference network)).2)
    by (by case_bool_decide).
  replace (IPs match (UnmarshalPodAnnotation (Annotations pod) nad).1 with
               | Some annotation => annotation
               | None => emptyPodAnnotation
               end)
    with (match (UnmarshalPodAnnotation (Annotations pod) nad).1 with
          | Some annotation => IPs annotation
          | None => []
          end)
    by (by destruct (UnmarshalPodAnnotation (Annotations pod) nad).1).
  generalize (bool_decide (IPAMClaimReference network ≠ "")
              && is_nil (GetPersistentIPs (pod.watchFactory a) (Namespace pod)
                           (IPAMClaimReference network)).2).
  generalize (match (UnmarshalPodAnnotation (Annotations pod) nad).1 with
              | Some annotation => IPs annotation
              | None => []
              end).
  generalize (releaseFromAllocator && negb (pod.isPodReleased nad (UID pod) a)).
  intros doRelease ips live.
  unfold pod.idAllocator_ReleaseID, pod.ipAllocator_ReleaseIPs.
  destruct (DoesNetworkRequireIPAM (pod.netInfo a)),
           (DoesNetworkRequireTunnelIDs (pod.netInfo a)),
           doRelease, live; simpl;
    destruct (pod.idAllocator a) as [i|] eqn:Hid,
             (pod.ipAllocator a) as [s|] eqn:Hip; simpl;
    try rewrite Hip; try rewrite Hid; simpl;
    try destruct (ReleaseIPs (GetNetworkName (pod.netInfo a)) ips s) as [[e|] s'];
    simpl;
    try (destruct podDeleted;
         [ edestruct isPodReleased_deleteReleasedPod as (a1 & -> & Hledger & Hreleased)
         | edestruct isPodReleased_addReleasedPod as (a1 & -> & Hledger & Hreleased) ]);
    intros Hrun; simplify_eq;
    try (rewrite Hledger; simpl; rewrite ?Hip, ?Hid; by repeat split);
    try (simpl; rewrite ?Hip, ?Hid; by repeat split).
Qed.

(** The release path returns, and with which error, when the allocators it
    is about to call are set. *)
Lemma releasePodOnNAD_total pod nad network podDeleted releaseFromAllocator a :
  let hasIPAM := DoesNetworkRequireIPAM (pod.netInfo a) in
  let hasIDAllocation := DoesNetworkRequireTunnelIDs (pod.netInfo a) in
  let doRelease := releaseFromAllocator && negb (pod.isPodReleased nad (UID pod) a) in
  let doReleaseIPs := doRelease && hasIPAM && negb (pod.claimIsLive pod network a) in
  (doRelease && hasIDAllocation = true → is_Some (pod.idAllocator a)) →
  (doReleaseIPs = true → is_Some (pod.ipAllocator a)) →
  ∃ a', pod.releasePodOnNAD pod nad network podDeleted releaseFromAllocator a =
          Some (match pod.ipAllocator a with
                | Some s =>
                    if doReleaseIPs
                    then Wrapf "failed to release ips %v for pod %s/%s and nad %s: %w"
                           <$> (ReleaseIPs (GetNetworkName (pod.netInfo a))
                                  (pod.annotatedIPs pod nad) s).1
                    else nil
                | None => nil
                end, a').
Proof.
  unfold pod.releasePodOnNAD, pod.claimIsLive, pod.annotatedIPs. run.
  replace (if bool_decide (IPAMClaimReference network ≠ "")
           then is_nil (GetPersistentIPs (pod.watchFactory a) (Namespace pod)
                          (IPAMClaimReference network)).2
           else false)
    with (bool_decide (IPAMClaimReference network ≠ "")
          && is_nil (GetPersistentIPs (pod.watchFactory a) (Namespace pod)
                       (IPAMClaimReference network)).2)
    by (by case_bool_decide).
  replace (IPs match (UnmarshalPodAnnotation (Annotations pod) nad).1 with
               | Some annotation => annotation
               | None => emptyPodAnnotation
               end)
    with (match (UnmarshalPodAnnotation (Annotations pod) nad).1 with
          | Some annotation => IPs annotation
          | None => []
          end)
    by (by destruct (UnmarshalPodAnnotation (Annotations pod) nad).1).
  generalize (bool_decide (IPAMClaimReference network ≠ "")
              && is_nil (GetPersistentIPs (pod.watchFactory a) (Namespace pod)
                           (IPAMClaimReference network)).2).
  generalize (match (UnmarshalPodAnnotation (Annotations pod) nad).1 with
              | Some annotation => IPs annotation
              | None => []
              end).
  generalize (releaseFromAllocator && negb (pod.isPodReleased nad (UID pod) a)).
  intros doRelease ips live.
  unfold pod.idAllocator_ReleaseID, pod.ipAllocator_ReleaseIPs.
  destruct (DoesNetworkRequireIPAM (pod.netInfo a)),
           (DoesNetworkRequireTunnelIDs (pod.netInfo a)),
           doRelease, live; simpl;
    intros Hi Hs;
    try (destruct (Hi eq_refl) as [i Hid]; rewrite Hid; simpl);
    try (destruct (Hs eq_refl) as [s Hip]; rewrite Hip; simpl);
    try (destruct (pod.ipAllocator a) as [s|]; simpl);
    try (destruct (ReleaseIPs (GetNetworkName (pod.netInfo a)) ips s) as [[e|] s'];
         simpl);
    try (destruct podDeleted;
         [ edestruct isPodReleased_deleteReleasedPod as (a1 & -> & _ & _)
         | edestruct isPodReleased_addReleasedPod as (a1 & -> & _ & _) ]);
    by eexists.
Qed.

(** A traversal that has nothing to release: release is not asked for, or the
    pod is in the ledger, or the network has neither IPAM nor tunnel IDs. It
    returns nil and calls no allocator. *)
Lemma releasePodOnNAD_without_release pod nad network podDeleted releaseFromAllocator a :
  releaseFromAllocator && negb (pod.isPodReleased nad (UID pod) a) = false
  ∨ DoesNetworkRequireIPAM (pod.netInfo a)
    || DoesNetworkRequireTunnelIDs (pod.netInfo a) = false →
  ∃ a', pod.releasePodOnNAD pod nad network podDeleted releaseFromAllocator a
          = Some (nil, a')
        ∧ pod.netInfo a' = pod.netInfo a
        ∧ pod.ipAllocator a' = pod.ipAllocator a
        ∧ pod.idAllocator a' = pod.idAllocator a
        ∧ (DoesNetworkRequireIPAM (pod.netInfo a)
           || DoesNetworkRequireTunnelIDs (pod.netInfo a) = true →
           pod.isPodReleased nad (UID pod) a' = negb podDeleted).
Proof.
  intros Hnone.
  destruct (releasePodOnNAD_total pod nad network podDeleted releaseFromAllocator a)
    as [a' Hrun].
  { destruct Hnone as [-> | [_ ->]%orb_false_elim]; [done|].
    by rewrite andb_false_r. }
  { destruct Hnone as [-> | [-> _]%orb_false_elim]; [done|].
    by rewrite andb_false_r. }
  assert (releaseFromAllocator && negb (pod.isPodReleased nad (UID pod) a)
          && DoesNetworkRequireIPAM (pod.netInfo a)
          && negb (pod.claimIsLive pod network a) = false) as Hips.
  { destruct Hnone as [-> | [-> _]%orb_false_elim]; [done|].
    by rewrite andb_false_r. }
  assert (releaseFromAllocator && negb (pod.isPodReleased nad (UID pod) a)
          && DoesNetworkRequireTunnelIDs (pod.netInfo a) = false) as Hids.
  { destruct Hnone as [-> | [_ ->]%orb_false_elim]; [done|].
    by rewrite andb_false_r. }
  rewrite Hips in Hrun.
  assert (match pod.ipAllocator a with Some _ | _ => nil end = @nil error_value) as Hnil
    by (by destruct (pod.ipAllocator a)).
  rewrite Hnil in Hrun. clear Hnil.
  exists a'. split; [done|].
  destruct (releasePodOnNAD_returns _ _ _ _ _ _ _ _ Hrun)
    as (Hnet & _ & _ & Hid & Hip & Hledger & _).
  rewrite Hids in Hid. rewrite Hips in Hip. auto.
Qed.

(** C1. The release path driven twice for one attachment and one workload,
    first for the completed pod and then again (for the completed pod or for
    its deletion): the first traversal, when it returns nil from a state in
    which the pod is not in the ledger, has called [ReleaseID] once if the
    network has tunnel IDs and [ReleaseIPs] once if it has IPAM and no live
    claim; it leaves the pod in the ledger; the second traversal returns nil
    and calls neither allocator. *)
Theorem release_twice_releases_once
    pod pod' nad network network' podDeleted' releaseFromAllocator' a a1 :
  UID pod' = UID pod →
  pod.releasePodOnNAD pod nad network false true a = Some (nil, a1) →
  let hasIPAM := DoesNetworkRequireIPAM (pod.netInfo a) in
  let hasIDAllocation := DoesNetworkRequireTunnelIDs (pod.netInfo a) in
  (pod.isPodReleased nad (UID pod) a = false →
   pod.idAllocator a1 =
     (if hasIDAllocation
      then ReleaseID (pod.podIdAllocationName nad (UID pod)) <$> pod.idAllocator a
      else pod.idAllocator a)
   ∧ pod.ipAllocator a1 =
       (if hasIPAM && negb (pod.claimIsLive pod network a)
        then (λ s, (ReleaseIPs (GetNetworkName (pod.netInfo a))
                      (pod.annotatedIPs pod nad) s).2) <$> pod.ipAllocator a
        else pod.ipAllocator a))
  ∧ (hasIPAM || hasIDAllocation = true → pod.isPodReleased nad (UID pod) a1 = true)
  ∧ ∃ a2, pod.releasePodOnNAD pod' nad network' podDeleted' releaseFromAllocator' a1
            = Some (nil, a2)
          ∧ pod.ipAllocator a2 = pod.ipAllocator a1
          ∧ pod.idAllocator a2 = pod.idAllocator a1.
Proof.
  intros Huid Hfirst hasIPAM hasIDAllocation.
  destruct (releasePodOnNAD_returns _ _ _ _ _ _ _ _ Hfirst)
    as (Hnet & _ & _ & Hid & Hip & Hledger & _).
  fold hasIPAM hasIDAllocation in Hid, Hip, Hledger.
  split; [|split].
  - intros Hfresh. rewrite Hfresh in Hid, Hip. by simpl in *.
  - intros Hmanaged. by apply Hledger.
  - destruct (releasePodOnNAD_without_release pod' nad network' podDeleted'
                releaseFromAllocator' a1) as (a2 & Hsecond & _ & Hip2 & Hid2 & _).
    { rewrite Hnet, Huid. fold hasIPAM hasIDAllocation.
      destruct (hasIPAM || hasIDAllocation) eqn:Hmanaged; [left|by right].
      rewrite Hledger by done. simpl. apply andb_false_r. }
    by exists a2.
Qed.


(** C8. A pod whose allocation annotation is missing or does not parse
    goes through the release path as one without addresses: [ReleaseIPs] is
    at most called with no address, and when that call does not fail the
    path returns nil and the ledger is updated as usual. *)
Theorem release_tolerates_missing_annotation
    pod nad network podDeleted releaseFromAllocator a :
  (UnmarshalPodAnnotation (Annotations pod) nad).1 = None →
  pod.initialised a →
  (∀ s, pod.ipAllocator a = Some s →
        (ReleaseIPs (GetNetworkName (pod.netInfo a)) [] s).1 = nil) →
  pod.annotatedIPs pod nad = []
  ∧ ∃ a', pod.releasePodOnNAD pod nad network podDeleted releaseFromAllocator a
            = Some (nil, a')
          ∧ (DoesNetworkRequireIPAM (pod.netInfo a)
             || DoesNetworkRequireTunnelIDs (pod.netInfo a) = true →
             pod.isPodReleased nad (UID pod) a' = negb podDeleted)
          ∧ (pod.ipAllocator a' = pod.ipAllocator a
             ∨ pod.ipAllocator a' =
                 (λ s, (ReleaseIPs (GetNetworkName (pod.netInfo a)) [] s).2)
                   <$> pod.ipAllocator a).
Proof.
  intros Hnone [Hwf_ip Hwf_id] Hempty.
  assert (pod.annotatedIPs pod nad = []) as Hips
    by (unfold pod.annotatedIPs; by rewrite Hnone).
  split; [done|].
  destruct (releasePodOnNAD_total pod nad network podDeleted releaseFromAllocator a)
    as [a' Hrun].
  { intros [_ ?]%andb_true_iff. auto. }
  { intros [[_ ?]%andb_true_iff _]%andb_true_iff. auto. }
  destruct (releasePodOnNAD_returns _ _ _ _ _ _ _ _ Hrun)
    as (_ & _ & _ & _ & Hip' & Hledger & _).
  rewrite Hips in Hrun, Hip', Hledger.
  assert (match pod.ipAllocator a with
          | Some s =>
              if releaseFromAllocator && negb (pod.isPodReleased nad (UID pod) a)
                 && DoesNetworkRequireIPAM (pod.netInfo a)
                 && negb (pod.claimIsLive pod network a)
              then Wrapf "failed to release ips %v for pod %s/%s and nad %s: %w"
                     <$> (ReleaseIPs (GetNetworkName (pod.netInfo a)) [] s).1
              else nil
          | None => nil
          end = nil) as Hnil.
  { destruct (pod.ipAllocator a) as [s|] eqn:Hs; [|done].
    rewrite (Hempty s eq_refl). by destruct (_ && _). }
  rewrite Hnil in Hrun, Hledger. exists a'. split; [done|].
  split; [by apply Hledger|].
  rewrite Hip'. destruct (_ && _); auto.
Qed.

Lemma liveReleases_of_released nad uid updates deletion a :
  DoesNetworkRequireIPAM (pod.netInfo a)
  || DoesNetworkRequireTunnelIDs (pod.netInfo a) = true →
  pod.isPodReleased nad uid a = true →
  Forall (λ event, UID event.1 = uid) updates →
  (∀ event, deletion = Some event → UID event.1 = uid) →
  ∃ a', pod.liveReleases nad updates deletion a = Some (nil, a')
        ∧ pod.ipAllocator a' = pod.ipAllocator a
        ∧ pod.idAllocator a' = pod.idAllocator a.
Proof.
  intros Hmanaged Hreleased Hupdates Hdeletion. unfold pod.liveReleases.
  revert a Hmanaged Hreleased.
  induction Hupdates as [|[p network] updates Huid _ IH]; intros a Hmanaged Hreleased.
  - destruct deletion as [[p network]|]; simpl; run; [|by eexists].
    destruct (releasePodOnNAD_without_release p nad network true true a)
      as (a' & -> & _ & Hip & Hid & _); [|by eexists].
    left. specialize (Hdeletion _ eq_refl). simpl in Hdeletion.
    by rewrite Hdeletion, Hreleased.
  - simpl in Huid. simpl. run.
    destruct (releasePodOnNAD_without_release p nad network false true a)
      as (a1 & -> & Hnet & Hip & Hid & Hledger).
    { left. by rewrite Huid, Hreleased. }
    destruct (IH a1) as (a' & Hrest & Hip' & Hid').
    { by rewrite Hnet. }
    { rewrite <- Huid. by apply Hledger. }
    exists a'. split; [exact Hrest|]. by rewrite Hip', Hid'.
Qed.

(** C9, as the code has it. On a network with IPAM or tunnel IDs the ledger
    is updated by every traversal of the release path that returns nil,
    whether or not an allocator was called: the pod is in the ledger after a
    traversal for a completed pod and out of it after a traversal for a
    deleted pod, and a traversal with release suppressed or for a pod
    already in the ledger does return nil without calling an allocator. So
    after the traversal [Sync] makes for a completed pod, the live release
    traversals of that pod (its updates, then its deletion) call no
    allocator. *)
Theorem ledger_updated_when_release_returns a :
  DoesNetworkRequireIPAM (pod.netInfo a)
  || DoesNetworkRequireTunnelIDs (pod.netInfo a) = true →
  (∀ pod nad network podDeleted releaseFromAllocator a',
     pod.releasePodOnNAD pod nad network podDeleted releaseFromAllocator a
       = Some (nil, a') →
     pod.isPodReleased nad (UID pod) a' = negb podDeleted)
  ∧ (∀ pod nad network podDeleted releaseFromAllocator,
       releaseFromAllocator = false ∨ pod.isPodReleased nad (UID pod) a = true →
       ∃ a', pod.releasePodOnNAD pod nad network podDeleted releaseFromAllocator a
               = Some (nil, a')
             ∧ pod.isPodReleased nad (UID pod) a' = negb podDeleted
             ∧ pod.ipAllocator a' = pod.ipAllocator a
             ∧ pod.idAllocator a' = pod.idAllocator a)
  ∧ (∀ pod nad network updates deletion,
       Forall (λ event, UID event.1 = UID pod) updates →
       (∀ event, deletion = Some event → UID event.1 = UID pod) →
       ∃ a1 a2, pod.releasePodOnNAD pod nad network false false a = Some (nil, a1)
                ∧ pod.isPodReleased nad (UID pod) a1 = true
                ∧ pod.liveReleases nad updates deletion a1 = Some (nil, a2)
                ∧ pod.ipAllocator a2 = pod.ipAllocator a
                ∧ pod.idAllocator a2 = pod.idAllocator a).
Proof.
  intros Hmanaged. split; [|split].
  - intros pod nad network podDeleted releaseFromAllocator a' Hrun.
    destruct (releasePodOnNAD_returns _ _ _ _ _ _ _ _ Hrun)
      as (_ & _ & _ & _ & _ & Hledger & _).
    by apply Hledger.
  - intros pod nad network podDeleted releaseFromAllocator Hnone.
    destruct (releasePodOnNAD_without_release pod nad network podDeleted
                releaseFromAllocator a) as (a' & Hrun & _ & Hip & Hid & Hledger).
    { left. destruct Hnone as [-> | ->]; [done|apply andb_false_r]. }
    exists a'. auto.
  - intros pod nad network updates deletion Hupdates Hdeletion.
    destruct (releasePodOnNAD_without_release pod nad network false false a)
      as (a1 & Hrun & Hnet & Hip & Hid & Hledger); [by left|].
    destruct (liveReleases_of_released nad (UID pod) updates deletion a1)
      as (a2 & Hlive & Hip' & Hid'); [by rewrite Hnet|by apply Hledger|done..|].
    exists a1, a2. rewrite Hip', Hid'. auto.
Qed.

(** ** Replay *)

Lemma reconcile_release_agnostic releaseIPs releaseID old new a :
  pod.reconcile (SA := pod.with_ReleaseIPs releaseIPs SA)
                (IA := pod.with_ReleaseID releaseID IA) old new false a
  = pod.reconcile old new false a.
Proof.
  unfold pod.reconcile.
  destruct (pod.event_pod old new) as [p|]; [|done].
  destruct (negb (PodScheduled p) || PodWantsHostNetwork p); [done|].
  run.
  by destruct (GetPodNADToNetworkMapping p (pod.netInfo a)) as [[[] nm] [e|]].
Qed.

Lemma release_loop_without_release old new p networkMap a :
  pod.event_pod old new = Some p →
  PodCompleted p || is_nil new = true →
  ∃ a', for_each_until_error
          (λ '(nadName, network), pod.reconcileForNAD old new nadName network false)
          networkMap a = Some (nil, a')
        ∧ pod.ipAllocator a' = pod.ipAllocator a
        ∧ pod.idAllocator a' = pod.idAllocator a.
Proof.
  intros Hevent Hrelease. revert a.
  induction networkMap as [|[nad network] networkMap IH]; intros a; simpl; run;
    [by eexists|].
  unfold pod.reconcileForNAD at 1. rewrite Hevent, Hrelease.
  destruct (releasePodOnNAD_without_release p nad network (is_nil new) false a)
    as (a1 & -> & _ & Hip & Hid & _); [by left|].
  destruct (IH a1) as (a' & Hrest & Hip' & Hid').
  exists a'. split; [exact Hrest|]. by rewrite Hip', Hid'.
Qed.

Lemma reconcile_completed_without_release old new p a :
  pod.event_pod old new = Some p →
  PodCompleted p || is_nil new = true →
  ∃ err a', pod.reconcile old new false a = Some (err, a')
            ∧ pod.ipAllocator a' = pod.ipAllocator a
            ∧ pod.idAllocator a' = pod.idAllocator a.
Proof.
  intros Hevent Hrelease. unfold pod.reconcile. rewrite Hevent.
  destruct (negb (PodScheduled p) || PodWantsHostNetwork p); [by eexists _, _|].
  run. destruct (GetPodNADToNetworkMapping p (pod.netInfo a)) as [[[] nm] [e|]];
    simpl; try by eexists _, _.
  destruct (release_loop_without_release old new p nm a Hevent Hrelease)
    as (a' & Hloop & Hip & Hid).
  by exists nil, a'.
Qed.

(** C3. [Sync] replays with the release flag off. It never calls
    [ReleaseIPs] nor [ReleaseID]: its result is the same whatever these two
    operations are. And the replay of a pod that is completed returns with
    the two allocators as they were. *)
Theorem Sync_releases_nothing objs a :
  (∀ releaseIPs releaseID,
     pod.Sync (SA := pod.with_ReleaseIPs releaseIPs SA)
              (IA := pod.with_ReleaseID releaseID IA) objs a
     = pod.Sync objs a)
  ∧ (∀ p, PodCompleted p = true →
          ∃ err a', pod.reconcile None (Some p) false a = Some (err, a')
                    ∧ pod.ipAllocator a' = pod.ipAllocator a
                    ∧ pod.idAllocator a' = pod.idAllocator a).
Proof.
  split.
  - intros releaseIPs releaseID. revert a.
    induction objs as [|[p|claim|name] objs IH]; intros a; simpl; [done|..|done|done].
    run. rewrite reconcile_release_agnostic.
    destruct (pod.reconcile None (Some p) false a) as [[err a1]|]; [|done].
    apply IH.
  - intros p Hcompleted. apply (reconcile_completed_without_release _ _ p); [done|].
    by rewrite Hcompleted.
Qed.

(** ** Reconcile *)

Lemma for_each_until_error_ext {A : Type}
    (f g : A → M (pod.PodAllocator S I K) error) (xs : list A) a :
  (∀ x a, f x a = g x a) →
  for_each_until_error f xs a = for_each_until_error g xs a.
Proof.
  intros Hfg. revert a. induction xs as [|x xs IH]; intros a; [done|].
  simpl. run. rewrite Hfg.
  destruct (g x a) as [[[e|] a1]|]; auto.
Qed.

(** [reconcile] inlined: the guards, then one path per attachment. *)
Lemma reconcile_per_attachment old new p releaseFromAllocator a :
  pod.event_pod old new = Some p →
  pod.reconcile old new releaseFromAllocator a =
    if negb (PodScheduled p) || PodWantsHostNetwork p then Some (nil, a)
    else
      match GetPodNADToNetworkMapping p (pod.netInfo a) with
      | (_, _, Some e) =>
          Some (Some (Wrapf "failed to get NAD to network mapping: %w" e), a)
      | (false, _, None) => Some (nil, a)
      | (true, networkMap, None) =>
          for_each_until_error
            (λ '(nad, network),
               if PodCompleted p || is_nil new
               then pod.releasePodOnNAD p nad network (is_nil new) releaseFromAllocator
               else pod.allocatePodOnNAD p nad network)
            networkMap a
      end.
Proof.
  intros Hevent. unfold pod.reconcile. rewrite Hevent.
  destruct (negb (PodScheduled p) || PodWantsHostNetwork p); [done|].
  run. destruct (GetPodNADToNetworkMapping p (pod.netInfo a)) as [[[] nm] [e|]];
    try done.
  simpl. apply for_each_until_error_ext. intros [nad network] a1.
  unfold pod.reconcileForNAD. by rewrite Hevent.
Qed.

(** C2, as the code has it. For an event with a pod, [reconcile] follows
    the state machine of the specification once the attachments of the pod
    to the network are resolved: a pod classified no-op is a no-op; for a pod
    classified release or allocate, a failure to resolve the attachments is
    returned as an error, a pod that is not on the network is a no-op, and
    otherwise the release path, or the allocate path, is run on the
    attachments in turn up to the first error. *)
Theorem reconcile_classifies old new p releaseFromAllocator a :
  pod.event_pod old new = Some p →
  match pod.classify new p with
  | pod.NoOp => pod.reconcile old new releaseFromAllocator a = Some (nil, a)
  | pod.Release =>
      pod.reconcile old new releaseFromAllocator a =
        pod.onAttachments p
          (λ nad network,
             pod.releasePodOnNAD p nad network (is_nil new) releaseFromAllocator) a
  | pod.Allocate =>
      new = Some p
      ∧ pod.reconcile old new releaseFromAllocator a =
          pod.onAttachments p (λ nad network, pod.allocatePodOnNAD p nad network) a
  end.
Proof.
  intros Hevent. rewrite (reconcile_per_attachment old new p) by done.
  unfold pod.classify, pod.onAttachments.
  destruct (PodScheduled p), (PodWantsHostNetwork p); simpl; try done.
  destruct (PodCompleted p || is_nil new) eqn:Hrelease.
  - by destruct (GetPodNADToNetworkMapping p (pod.netInfo a)) as [[[] nm] [e|]].
  - split.
    + destruct new as [p'|]; [by simplify_eq/=|].
      by rewrite orb_true_r in Hrelease.
    + by destruct (GetPodNADToNetworkMapping p (pod.netInfo a)) as [[[] nm] [e|]].
Qed.

(** ** Replay never fails *)

Lemma releasePodOnNAD_initialised pod nad network podDeleted releaseFromAllocator a :
  pod.initialised a →
  ∃ err a', pod.releasePodOnNAD pod nad network podDeleted releaseFromAllocator a
              = Some (err, a')
            ∧ pod.netInfo a' = pod.netInfo a ∧ pod.initialised a'.
Proof.
  intros [Hwf_ip Hwf_id].
  destruct (releasePodOnNAD_total pod nad network podDeleted releaseFromAllocator a)
    as [a' Hrun].
  { intros [_ ?]%andb_true_iff. auto. }
  { intros [[_ ?]%andb_true_iff _]%andb_true_iff. auto. }
  destruct (releasePodOnNAD_returns _ _ _ _ _ _ _ _ Hrun)
    as (Hnet & _ & _ & Hid & Hip & _).
  eexists _, a'. split; [done|]. split; [done|].
  unfold pod.initialised. rewrite Hnet, Hid, Hip.
  split; intros Hflag;
    match goal with |- is_Some (if ?c then _ else _) => destruct c end;
    try rewrite fmap_is_Some; auto.
Qed.

Lemma allocatePodOnNAD_initialised pod nad network a :
  pod.initialised a → pod.keeps_allocators PA →
  ∃ err a', pod.allocatePodOnNAD pod nad network a = Some (err, a')
            ∧ pod.netInfo a' = pod.netInfo a ∧ pod.initialised a'.
Proof.
  intros [Hwf_ip Hwf_id] Hkeeps.
  unfold pod.allocatePodOnNAD, pod.podAnnotationAllocator_Allocate,
    pod.findIPAMClaim, pod.on_persistentIPsAllocator. run.
  assert (∀ ipName idName ipamClaim,
            ∃ res s' i' k',
              AllocatePodAnnotationWithTunnelID ipName idName pod network ipamClaim
                false (pod.ipAllocator a, pod.idAllocator a, pod.kube a)
              = (res, (s', i', k'))
              ∧ (DoesNetworkRequireIPAM (pod.netInfo a) = true → is_Some s')
              ∧ (DoesNetworkRequireTunnelIDs (pod.netInfo a) = true → is_Some i'))
    as Hallocate.
  { intros ipName idName ipamClaim.
    pose proof (Hkeeps ipName idName pod network ipamClaim false
                  (pod.ipAllocator a) (pod.idAllocator a) (pod.kube a)) as Hk.
    destruct (AllocatePodAnnotationWithTunnelID _ _ _ _ _ _ _)
      as [res [[s' i'] k']]. simpl in Hk. destruct Hk as [Hs Hi].
    exists res, s', i', k'. auto. }
  destruct (DoesNetworkRequireIPAM (pod.netInfo a)) eqn:HIPAM;
    [destruct (Hwf_ip eq_refl) as [s Hs]; rewrite Hs|]; simpl;
    (destruct (DoesNetworkRequireTunnelIDs (pod.netInfo a)) eqn:HID;
     [destruct (Hwf_id eq_refl) as [i Hi]; rewrite Hi|]; simpl).
  all: try case_bool_decide;
    try destruct (GetPersistentIPs (pod.watchFactory a) (Namespace pod)
                    (IPAMClaimReference network)) as [claim [e|]];
    simpl.
  all: match goal with
       | |- context [AllocatePodAnnotationWithTunnelID ?x ?y _ _ ?c false _] =>
           destruct (Hallocate x y c) as (res & s' & i' & k' & Heq & Hs' & Hi');
           rewrite Heq; clear Heq;
           destruct res as [[updated annotation]|e']; simpl
       | _ => idtac
       end.
  all: try match goal with
       | |- context [match ?c with Some _ => _ | None => _ end] =>
           is_var c; destruct c; simpl
       end.
  all: try match goal with
       | |- context [persistentips.Reconcile ?c ?l _] =>
           destruct (Hs' eq_refl) as [s2 ->]; simpl;
           match goal with
           | |- context [persistentips.Reconcile c l ?p] =>
               destruct (Reconcile_total c l p) as ([e2|] & k2 & ->)
           end; simpl
       end.
  all: eexists _, _; (split; [reflexivity|]); (split; [reflexivity|]);
    split; simpl; intros; (eauto || congruence).
Qed.

Lemma attachments_initialised p (new : option Pod) releaseFromAllocator networkMap a :
  pod.initialised a → pod.keeps_allocators PA →
  ∃ err a',
    for_each_until_error
      (λ '(nad, network),
         if PodCompleted p || is_nil new
         then pod.releasePodOnNAD p nad network (is_nil new) releaseFromAllocator
         else pod.allocatePodOnNAD p nad network)
      networkMap a = Some (err, a')
    ∧ pod.netInfo a' = pod.netInfo a ∧ pod.initialised a'.
Proof.
  intros Hwf Hkeeps. revert a Hwf.
  induction networkMap as [|[nad network] nm IH]; intros a Hwf; simpl; run;
    [by eexists _, _|].
  assert (∃ err a1,
            (if PodCompleted p || is_nil new
             then pod.releasePodOnNAD p nad network (is_nil new) releaseFromAllocator
             else pod.allocatePodOnNAD p nad network) a = Some (err, a1)
            ∧ pod.netInfo a1 = pod.netInfo a ∧ pod.initialised a1)
    as (err & a1 & -> & Hnet & Hwf1).
  { destruct (PodCompleted p || is_nil new);
      [by apply releasePodOnNAD_initialised|by apply allocatePodOnNAD_initialised]. }
  destruct err as [e|]; [by eexists _, _|].
  destruct (IH a1 Hwf1) as (err & a' & Hrest & Hnet' & Hwf').
  exists err, a'. split; [exact Hrest|]. by rewrite Hnet', Hnet.
Qed.

Lemma reconcile_initialised old new p releaseFromAllocator a :
  pod.event_pod old new = Some p →
  pod.initialised a → pod.keeps_allocators PA →
  ∃ err a', pod.reconcile old new releaseFromAllocator a = Some (err, a')
            ∧ pod.netInfo a' = pod.netInfo a ∧ pod.initialised a'.
Proof.
  intros Hevent Hwf Hkeeps. rewrite (reconcile_per_attachment old new p) by done.
  destruct (negb (PodScheduled p) || PodWantsHostNetwork p); [by eexists _, _|].
  destruct (GetPodNADToNetworkMapping p (pod.netInfo a)) as [[[] nm] [e|]];
    try by eexists _, _.
  by apply attachments_initialised.
Qed.

Lemma Sync_never_returns_error objs a e a' :
  pod.Sync objs a ≠ Some (Some e, a').
Proof.
  revert a.
  induction objs as [|[p|claim|typeName] objs IH]; intros a; simpl; run;
    [unfold nil; congruence| |apply IH..].
  destruct (pod.reconcile None (Some p) false a) as [[err a1]|]; [apply IH|done].
Qed.

Lemma Sync_initialised objs a :
  pod.initialised a → pod.keeps_allocators PA →
  ∃ a', pod.Sync objs a = Some (nil, a') ∧ pod.initialised a'.
Proof.
  intros Hwf Hkeeps. revert a Hwf.
  induction objs as [|[p|claim|typeName] objs IH]; intros a Hwf; simpl; auto.
  - by exists a.
  - run.
    destruct (reconcile_initialised None (Some p) p false a)
      as (err & a1 & -> & _ & Hwf1); auto.
Qed.

(** C10. [Sync] never returns an error, on any list of objects: an object
    that is not a pod is skipped, and the error of the reconcile of a pod is
    dropped before the loop goes on from the state the reconcile left. On an
    allocator that [NewPodAllocator] and [Init] have set up, [Sync] does
    return, with nil. *)
Theorem Sync_returns_nil objs a :
  (∀ e a', pod.Sync objs a ≠ Some (Some e, a'))
  ∧ (∀ claim, pod.Sync (IPAMClaimObject claim :: objs) a = pod.Sync objs a)
  ∧ (∀ typeName, pod.Sync (OtherObject typeName :: objs) a = pod.Sync objs a)
  ∧ (∀ p, pod.Sync (PodObject p :: objs) a =
          match pod.reconcile None (Some p) false a with
          | Some (_, a1) => pod.Sync objs a1
          | None => None
          end)
  ∧ (pod.initialised a → pod.keeps_allocators PA →
     ∃ a', pod.Sync objs a = Some (nil, a') ∧ pod.initialised a').
Proof.
  split; [|split; [done|split; [done|split]]].
  - intros e a'. apply Sync_never_returns_error.
  - intros p. simpl. run.
    by destruct (pod.reconcile None (Some p) false a) as [[err a1]|].
  - apply Sync_initialised.
Qed.

End pod_properties.

(** ** Tunnel IDs *)

Section tunnel_ids.
Context {U : UtilPkg} {S K : Type} {SA : SubnetAllocator S}.

Lemma podIdAllocationName_not_zero nad uid :
  pod.podIdAllocationName nad uid ≠ "zero".
Proof.
  unfold pod.podIdAllocationName. intros Hzero.
  do 4 (destruct nad as [|? nad]; simpl in Hzero; [discriminate Hzero|];
        injection Hzero as _ Hzero).
  destruct nad; discriminate Hzero.
Qed.

Lemma zero_is_used st : model.zero_reserved st → 0%Z ∈ model.usedIDs st.
Proof. intros [Hzero _]. unfold model.usedIDs. by eapply elem_of_map_img_2. Qed.

Lemma AllocateNext_keeps_zero pick name st :
  model.sound_policy pick → name ≠ "zero" → model.zero_reserved st →
  model.zero_reserved (model.AllocateNext pick name st).2
  ∧ (model.AllocateNext pick name st).1.1 ≠ Some 0%Z.
Proof.
  intros Hpick Hname Hzero. pose proof Hzero as [Hz Honly].
  unfold model.AllocateNext.
  destruct (model.nameIdMap st !! name) as [v|] eqn:Hv; simpl.
  { split; [done|]. intros [= ->]. by apply Hname, Honly. }
  destruct (pick (model.maxID st) (model.usedIDs st)) as [id|] eqn:Hid; simpl;
    [|done].
  apply Hpick in Hid as [_ Hfree].
  assert (id ≠ 0%Z) as Hid0.
  { intros ->. by apply Hfree, zero_is_used. }
  split; [|congruence].
  split; simpl.
  - by rewrite lookup_insert_ne.
  - intros name'. destruct (decide (name = name')) as [<-|Hne].
    + rewrite lookup_insert_eq. congruence.
    + rewrite lookup_insert_ne by done. apply Honly.
Qed.

Lemma ReserveID_keeps_zero name id st :
  name ≠ "zero" → model.zero_reserved st →
  model.zero_reserved (model.ReserveID name id st).2
  ∧ ((model.ReserveID name id st).1 = nil → id ≠ 0%Z).
Proof.
  intros Hname Hzero. pose proof Hzero as [Hz Honly].
  unfold model.ReserveID.
  destruct (model.nameIdMap st !! name) as [v|] eqn:Hv; simpl.
  { case_bool_decide as Hvid; simpl; [|done].
    split; [done|]. intros _ ->. subst v. by apply Hname, Honly. }
  case_bool_decide as Hrange; simpl; [|done].
  case_bool_decide as Hused; simpl; [done|].
  assert (id ≠ 0%Z) as Hid0.
  { intros ->. by apply Hused, zero_is_used. }
  split; [|done].
  split; simpl.
  - by rewrite lookup_insert_ne.
  - intros name'. destruct (decide (name = name')) as [<-|Hne].
    + rewrite lookup_insert_eq. congruence.
    + rewrite lookup_insert_ne by done. apply Honly.
Qed.

Lemma ReleaseID_keeps_zero name st :
  name ≠ "zero" → model.zero_reserved st →
  model.zero_reserved (model.ReleaseID name st).
Proof.
  intros Hname [Hz Honly]. split; simpl.
  - by rewrite lookup_delete_ne.
  - intros name'. destruct (decide (name = name')) as [<-|Hne].
    + by rewrite lookup_delete_eq.
    + rewrite lookup_delete_ne by done. apply Honly.
Qed.

Lemma serve_never_zero pick reqs st :
  model.sound_policy pick → model.zero_reserved st →
  (0%Z ∉ fst (model.serve pick reqs st))
  ∧ model.zero_reserved (snd (model.serve pick reqs st)).
Proof.
  intros Hpick. revert st.
  induction reqs as [|[nad uid|nad uid id|nad uid] reqs IH]; intros st Hzero; simpl.
  - split; [apply not_elem_of_nil|done].
  - pose proof (AllocateNext_keeps_zero pick _ st Hpick
                  (podIdAllocationName_not_zero nad uid) Hzero) as [Hzero' Hid].
    destruct (model.AllocateNext pick _ st) as [[id err] st']. simpl in *.
    specialize (IH st' Hzero').
    destruct (model.serve pick reqs st') as [ids st'']. simpl in *.
    destruct IH as [Hids ?]. split; [|done].
    destruct id as [v|]; [|done].
    rewrite not_elem_of_cons. split; [congruence|done].
  - pose proof (ReserveID_keeps_zero _ id st
                  (podIdAllocationName_not_zero nad uid) Hzero) as [Hzero' Hid].
    destruct (model.ReserveID _ id st) as [err st']. simpl in *.
    specialize (IH st' Hzero').
    destruct (model.serve pick reqs st') as [ids st'']. simpl in *.
    destruct IH as [Hids ?]. split; [|done].
    destruct err as [e|]; [done|].
    rewrite not_elem_of_cons. split; [|done]. intros Heq. by apply Hid.
  - apply IH, ReleaseID_keeps_zero; [apply podIdAllocationName_not_zero|done].
Qed.

(** C7. On a network with tunnel IDs, over the ID allocator of the
    specification: [Init] reserves the ID 0 under the name ["zero"] in the
    allocator it has just made. When that reservation fails, [Init] returns
    its error. When it succeeds, [Init] returns with an allocator in which
    ["zero"] holds 0, and from there no request made for a workload, under a
    name [podIdAllocationName nad uid], is ever handed the ID 0, whatever
    the allocation policy. *)
Theorem Init_reserves_zero pick (a : pod.PodAllocator S model.IDStore K) :
  model.sound_policy pick →
  DoesNetworkRequireTunnelIDs (pod.netInfo a) = true →
  (DoesNetworkRequireIPAM (pod.netInfo a) = true → is_Some (pod.ipAllocator a)) →
  match model.ReserveID "zero" 0
          {| model.maxID := MaxLogicalPortTunnelKey; model.nameIdMap := ∅ |} with
  | (Some e, st) =>
      pod.Init (IA := model.idAllocator) a = Some (Some e, pod.set_idAllocator (Some st) a)
  | (None, _) =>
      ∃ err a' ids,
        pod.Init (IA := model.idAllocator) a = Some (err, a')
        ∧ pod.idAllocator a' = Some ids
        ∧ model.nameIdMap ids !! "zero" = Some 0%Z
        ∧ ∀ reqs, (0%Z ∉ fst (model.serve pick reqs ids))
                  ∧ model.nameIdMap (snd (model.serve pick reqs ids)) !! "zero"
                    = Some 0%Z
  end.
Proof.
  intros Hpick HID Hwf.
  unfold pod.Init, pod.idAllocator_ReserveID, pod.ipAllocator_AddOrUpdateSubnet.
  run. rewrite HID. simpl.
  destruct (model.ReserveID "zero" 0 _) as [[e|] st] eqn:Hreserve; simpl; [done|].
  assert (model.zero_reserved st) as Hzero.
  { revert Hreserve. unfold model.ReserveID. simpl. rewrite lookup_empty.
    case_bool_decide; [|done]. case_bool_decide; [done|].
    intros [= <-]. split; simpl.
    - by rewrite lookup_insert_eq.
    - intros name. destruct (decide ("zero" = name)) as [<-|Hne]; [done|].
      by rewrite lookup_insert_ne, lookup_empty. }
  assert (∀ (err : error) (a' : pod.PodAllocator S model.IDStore K),
            pod.idAllocator a' = Some st →
            ∃ (err0 : error) a0 ids,
              Some (err, a') = Some (err0, a0)
              ∧ pod.idAllocator a0 = Some ids
              ∧ model.nameIdMap ids !! "zero" = Some 0%Z
              ∧ ∀ reqs, (0%Z ∉ fst (model.serve pick reqs ids))
                        ∧ model.nameIdMap (snd (model.serve pick reqs ids)) !! "zero"
                          = Some 0%Z) as Hdone.
  { intros err a' Hid. exists err, a', st. split; [done|]. split; [done|].
    split; [apply Hzero|]. intros reqs.
    destruct (serve_never_zero pick reqs st Hpick Hzero) as [? [? _]]. done. }
  destruct (DoesNetworkRequireIPAM (pod.netInfo a)); [|by apply Hdone].
  destruct (Hwf eq_refl) as [s Hs]. simpl. rewrite Hs.
  destruct (AddOrUpdateSubnet _ _ _ s) as [err s']. by apply Hdone.
Qed.

End tunnel_ids.

(** * The collaborators of the specification keep their contracts *)

Lemma first_fit_sound : model.sound_policy model.first_fit.
Proof.
  intros m used id. unfold model.first_fit.
  destruct (list_find _ _) as [[n x]|] eqn:Hfind; simpl; [|done].
  intros [= ->]. apply list_find_Some in Hfind as (Hlookup & Hfree & _).
  split; [|done].
  apply list_elem_of_lookup_2, elem_of_seqZ in Hlookup. lia.
Qed.

Lemma model_ReleaseIPs_never_errors name ips s :
  (model.ReleaseIPs name ips s).1 = nil.
Proof. unfold model.ReleaseIPs. by destruct (s !! name). Qed.

Lemma model_keeps_allocators (U : UtilPkg) :
  pod.keeps_allocators (model.podAnnotationAllocator U).
Proof.
  intros ipAllocator idAllocator p network ipamClaim reallocate s i k. simpl.
  unfold model.AllocatePodAnnotationWithTunnelID.
  destruct ipAllocator as [name|], s as [pools|]; simpl;
    try destruct (model.AllocateIPs _ _ _) as [[e|] pools']; simpl;
    destruct idAllocator as [idName|], i as [ids|]; simpl;
    try destruct (model.AllocateNext _ _ _) as [[id [e'|]] ids']; simpl;
    split; intros [? ?]; eauto; done.
Qed.

(** * The properties on the example cluster *)

Section example_cluster.
#[local] Existing Instances example.util model.subnetAllocator model.idAllocator
  model.kubeOVN example.annotationAllocator.

Example running_worker_holds_address_and_id :
  pod.ipAllocator example.running
  = Some {[ "blue" := {| model.ranges := [example.cidr (example.ipv4 192 168 200 0) 24];
                         model.exclusions := [];
                         model.allocated := {[ example.ipv4 192 168 200 2 ]} |} ]}
  ∧ pod.idAllocator example.running
    = Some {| model.maxID := 255;
              model.nameIdMap := {[ "zero" := 0%Z; "ns1/blue/uid-1" := 1%Z ]} |}
  ∧ pod.releasedPods example.running = ∅.
Proof. by vm_compute. Qed.

(** The event of the completion releases the address and the ID, once. *)
Example completed_worker_released :
  pod.ipAllocator example.completed
  = Some {[ "blue" := {| model.ranges := [example.cidr (example.ipv4 192 168 200 0) 24];
                         model.exclusions := [];
                         model.allocated := ∅ |} ]}
  ∧ pod.idAllocator example.completed
    = Some {| model.maxID := 255; model.nameIdMap := {[ "zero" := 0%Z ]} |}
  ∧ pod.isPodReleased "ns1/blue" "uid-1" example.completed = true.
Proof. by vm_compute. Qed.

(** Between the completion and the deletion of the worker its address is
    given to another pod: the deletion leaves it reserved, and clears the
    ledger. *)
Example deletion_after_completion_keeps_reused_address :
  let reused :=
    pod.set_ipAllocator
      ((λ s, (AllocateIPs "blue" [example.cidr (example.ipv4 192 168 200 2) 24] s).2)
         <$> pod.ipAllocator example.completed)
      example.completed in
  let deleted := example.after (pod.Reconcile (Some (example.worker "Succeeded")) None)
                   reused in
  pod.ipAllocator deleted = pod.ipAllocator example.running
  ∧ pod.idAllocator deleted = pod.idAllocator example.completed
  ∧ pod.releasedPods deleted = ∅.
Proof. by vm_compute. Qed.

Lemma release_twice_releases_once_witness :
  ∃ a2, pod.releasePodOnNAD (example.worker "Succeeded") "ns1/blue"
          example.attachment.2 true true example.completed = Some (nil, a2)
        ∧ pod.ipAllocator a2 = pod.ipAllocator example.completed
        ∧ pod.idAllocator a2 = pod.idAllocator example.completed.
Proof.
  refine (proj2 (proj2 (release_twice_releases_once
            (example.worker "Succeeded") (example.worker "Succeeded") "ns1/blue"
            example.attachment.2 example.attachment.2 true true
            example.running example.completed _ _))).
  - reflexivity.
  - by vm_compute.
Defined.

(** A completed pod with no attachment to the network: the state machine of
    the specification puts it on the release path, and [reconcile] returns
    nil with the allocator as it was, which no traversal of the release path
    on whatever attachment does, since a traversal would put the pod in the
    ledger. *)
Lemma completed_stranger_takes_no_path :
  pod.classify (Some example.stranger) example.stranger = pod.Release
  ∧ pod.reconcile None (Some example.stranger) true example.running
    = Some (nil, example.running)
  ∧ ¬ ∃ nad network,
        pod.reconcile None (Some example.stranger) true example.running
        = pod.releasePodOnNAD example.stranger nad network false true example.running.
Proof.
  assert (pod.reconcile None (Some example.stranger) true example.running
          = Some (nil, example.running)) as Hrun by (by vm_compute).
  split; [done|]. split; [done|].
  intros (nad & network & Hpath). rewrite Hrun in Hpath. symmetry in Hpath.
  destruct (releasePodOnNAD_returns _ _ _ _ _ _ _ _ Hpath)
    as (_ & _ & _ & _ & _ & Hledger & _).
  specialize (Hledger eq_refl eq_refl).
  unfold pod.isPodReleased in Hledger.
  replace (pod.releasedPods example.running) with (∅ : gmap string (gset string))
    in Hledger by (by vm_compute).
  by rewrite lookup_empty in Hledger.
Qed.

Lemma reconcile_classifies_witness :
  pod.reconcile (Some (example.worker "Running")) (Some (example.worker "Succeeded"))
    true example.running
  = pod.onAttachments (example.worker "Succeeded")
      (λ nad network,
         pod.releasePodOnNAD (example.worker "Succeeded") nad network false true)
      example.running.
Proof.
  exact (reconcile_classifies (Some (example.worker "Running"))
           (Some (example.worker "Succeeded")) (example.worker "Succeeded")
           true example.running eq_refl).
Defined.

Lemma Sync_releases_nothing_witness :
  ∃ err a', pod.reconcile None (Some (example.worker "Succeeded")) false example.running
            = Some (err, a')
            ∧ pod.ipAllocator a' = pod.ipAllocator example.running
            ∧ pod.idAllocator a' = pod.idAllocator example.running.
Proof.
  exact (proj2 (Sync_releases_nothing [PodObject (example.worker "Succeeded")]
                  example.running) (example.worker "Succeeded") eq_refl).
Defined.

Lemma Reconcile_keeps_recorded_status_witness :
  persistentips.Reconcile (example.claim1 ["192.168.200.2/24"]) ["192.168.200.3/24"]
    example.bridge = Some (nil, example.bridge).
Proof. apply Reconcile_keeps_recorded_status. simpl. lia. Defined.


(** The replay of claims tolerates an address that is already reserved, here
    by the running worker, and fails on an address that is in no subnet. *)
Example Sync_tolerates_reserved_address :
  ∃ a', persistentips.Sync example.replayedClaims
          (persistentips.NewPersistentIPsAllocator example.apiServer
             (ForSubnet "blue" example.runningPools))
        = Some (nil, a')
        ∧ (AllocateIPs "blue" [example.cidr (example.ipv4 192 168 200 2) 24]
             example.runningPools).1
          = Some (Sentinel "AlreadyAllocatedError").
Proof. eexists. by vm_compute. Qed.

Example Sync_fails_on_foreign_address :
  ∃ a', persistentips.Sync example.foreignClaims example.bridge
        = Some (Some (Errorf "failed allocating persistent ips: %v"), a').
Proof. eexists. by vm_compute. Qed.


Lemma Init_reserves_zero_witness :
  ∃ err a' ids,
    pod.Init (pod.NewPodAllocator example.blue example.apiServer example.informer)
    = Some (err, a')
    ∧ pod.idAllocator a' = Some ids
    ∧ model.nameIdMap ids !! "zero" = Some 0%Z
    ∧ ∀ reqs, (0%Z ∉ fst (model.serve model.first_fit reqs ids))
              ∧ model.nameIdMap (snd (model.serve model.first_fit reqs ids)) !! "zero"
                = Some 0%Z.
Proof.
  refine (Init_reserves_zero model.first_fit
            (pod.NewPodAllocator example.blue example.apiServer example.informer)
            first_fit_sound _ _).
  - reflexivity.
  - intros _. eexists. simpl. reflexivity.
Defined.

Lemma release_tolerates_missing_annotation_witness :
  pod.annotatedIPs example.strippedWorker "ns1/blue" = []
  ∧ ∃ a', pod.releasePodOnNAD example.strippedWorker "ns1/blue"
            example.attachment.2 false true example.running = Some (nil, a')
          ∧ (DoesNetworkRequireIPAM (pod.netInfo example.running)
             || DoesNetworkRequireTunnelIDs (pod.netInfo example.running) = true →
             pod.isPodReleased "ns1/blue" "uid-1" a' = true)
          ∧ (pod.ipAllocator a' = pod.ipAllocator example.running
             ∨ pod.ipAllocator a' =
                 (λ s, (ReleaseIPs "blue" [] s).2) <$> pod.ipAllocator example.running).
Proof.
  refine (release_tolerates_missing_annotation example.strippedWorker "ns1/blue"
            example.attachment.2 false true example.running _ _ _).
  - reflexivity.
  - split; intros _; eexists; by vm_compute.
  - intros s _. apply model_ReleaseIPs_never_errors.
Defined.

(** On the network [bare], with neither IPAM nor tunnel IDs, the release
    path returns before the ledger: the completed worker is not marked. *)
Lemma completed_pod_unmarked_without_ipam_and_ids :
  PodCompleted (example.worker "Succeeded") = true
  ∧ ¬ ∀ a', pod.releasePodOnNAD (example.worker "Succeeded") "ns1/bare"
              example.attachment.2 false false example.bareCluster = Some (nil, a') →
            pod.isPodReleased "ns1/bare" "uid-1" a' = true.
Proof.
  split; [reflexivity|]. intros Hmarked.
  assert (pod.releasePodOnNAD (example.worker "Succeeded") "ns1/bare"
            example.attachment.2 false false example.bareCluster
          = Some (nil, example.bareCluster)) as Hrun by (by vm_compute).
  specialize (Hmarked example.bareCluster Hrun). by vm_compute in Hmarked.
Qed.

Lemma ledger_updated_when_release_returns_witness :
  ∃ a', pod.releasePodOnNAD (example.worker "Succeeded") "ns1/blue"
          example.attachment.2 false false example.running = Some (nil, a')
        ∧ pod.isPodReleased "ns1/blue" "uid-1" a' = true
        ∧ pod.ipAllocator a' = pod.ipAllocator example.running
        ∧ pod.idAllocator a' = pod.idAllocator example.running.
Proof.
  refine (proj1 (proj2 (ledger_updated_when_release_returns example.running _))
            (example.worker "Succeeded") "ns1/blue" example.attachment.2
            false false _).
  - reflexivity.
  - by left.
Defined.

Lemma Sync_returns_nil_witness :
  ∃ a', pod.Sync [PodObject (example.worker "Running"); OtherObject "*v1.Node";
                  PodObject example.stranger] example.initial = Some (nil, a')
        ∧ pod.initialised a'.
Proof.
  refine (proj2 (proj2 (proj2 (proj2 (Sync_returns_nil _ example.initial)))) _ _).
  - split; intros _; eexists; by vm_compute.
  - apply model_keeps_allocators.
Defined.

End example_cluster.

(** * Further properties of the two allocators *)

(** ** The release ledger as a set of pairs *)

Section ledger_properties.
Context {S I K : Type}.

Implicit Types (a : pod.PodAllocator S I K) (nad uid : string).

Lemma addReleasedPod_ledger nad uid a :
  pod.addReleasedPod nad uid a =
    Some ((), pod.set_releasedPods
                (<[nad := default ∅ (pod.releasedPods a !! nad) ∪ {[uid]}]>
                   (pod.releasedPods a)) a).
Proof.
  unfold pod.addReleasedPod. run.
  destruct (pod.releasedPods a !! nad) as [released|]; simpl; [done|].
  by rewrite (left_id_L ∅ (∪)).
Qed.

Lemma deleteReleasedPod_ledger nad uid a :
  ∃ ledger,
    pod.deleteReleasedPod nad uid a = Some ((), pod.set_releasedPods ledger a)
    ∧ ∀ nad', ledger !! nad' =
        if decide (nad' = nad)
        then released ← pod.releasedPods a !! nad;
             if decide (released ∖ {[uid]} = ∅) then None
             else Some (released ∖ {[uid]})
        else pod.releasedPods a !! nad'.
Proof.
  unfold pod.deleteReleasedPod. run.
  destruct (pod.releasedPods a !! nad) as [released|] eqn:Hnad; simpl.
  - case_bool_decide as Hsize.
    + eexists. split; [done|]. intros nad'.
      destruct (decide (nad' = nad)) as [->|Hne].
      * rewrite lookup_delete_eq. apply size_empty_inv, leibniz_equiv in Hsize.
        by rewrite decide_True.
      * by rewrite lookup_delete_ne.
    + eexists. split; [done|]. intros nad'.
      destruct (decide (nad' = nad)) as [->|Hne].
      * rewrite lookup_insert_eq. rewrite decide_False; [done|].
        intros Hempty. rewrite Hempty in Hsize. by apply Hsize.
      * by rewrite lookup_insert_ne.
  - exists (pod.releasedPods a). split; [by destruct a|].
    intros nad'. destruct (decide (nad' = nad)) as [->|Hne]; [|done].
    by rewrite Hnad.
Qed.

Lemma isPodReleased_after_add nad uid a a' nad' uid' :
  pod.addReleasedPod nad uid a = Some ((), a') →
  pod.isPodReleased nad' uid' a' =
    if bool_decide (nad' = nad ∧ uid' = uid) then true
    else pod.isPodReleased nad' uid' a.
Proof.
  rewrite addReleasedPod_ledger. intros [= <-].
  unfold pod.isPodReleased. simpl.
  destruct (decide (nad' = nad)) as [->|Hnad].
  - rewrite lookup_insert_eq.
    destruct (decide (uid' = uid)) as [->|Huid].
    + rewrite (bool_decide_eq_true_2 (_ ∧ _)) by done.
      apply bool_decide_eq_true_2, elem_of_union_r. by apply elem_of_singleton.
    + rewrite (bool_decide_eq_false_2 (_ ∧ _)) by (intros [? ?]; congruence).
      destruct (pod.releasedPods a !! nad) as [released|]; simpl.
      * apply bool_decide_ext. rewrite elem_of_union, elem_of_singleton. tauto.
      * apply bool_decide_eq_false_2.
        rewrite elem_of_union, elem_of_singleton, elem_of_empty. tauto.
  - rewrite lookup_insert_ne by done.
    by rewrite (bool_decide_eq_false_2 (_ ∧ _)) by (intros [? ?]; congruence).
Qed.

(** X1. Marking a pod on an attachment makes [isPodReleased] true for that
    pair and leaves it as it was for every other pair, whether on the same
    attachment or on another; only the ledger changes. *)
Theorem addReleasedPod_marks_only nad uid a :
  ∃ a', pod.addReleasedPod nad uid a = Some ((), a')
        ∧ a' = pod.set_releasedPods (pod.releasedPods a') a
        ∧ ∀ nad' uid',
            pod.isPodReleased nad' uid' a' =
              if bool_decide (nad' = nad ∧ uid' = uid) then true
              else pod.isPodReleased nad' uid' a.
Proof.
  pose proof (addReleasedPod_ledger nad uid a) as Hadd.
  eexists. split; [exact Hadd|]. split; [done|].
  intros nad' uid'. by apply isPodReleased_after_add.
Qed.

Lemma isPodReleased_after_delete nad uid a a' nad' uid' :
  pod.deleteReleasedPod nad uid a = Some ((), a') →
  pod.isPodReleased nad' uid' a' =
    if bool_decide (nad' = nad ∧ uid' = uid) then false
    else pod.isPodReleased nad' uid' a.
Proof.
  destruct (deleteReleasedPod_ledger nad uid a) as (ledger & -> & Hledger).
  intros [= <-]. unfold pod.isPodReleased. simpl. rewrite Hledger.
  destruct (decide (nad' = nad)) as [->|Hnad].
  - destruct (pod.releasedPods a !! nad) as [released|]; simpl.
    + destruct (decide (released ∖ {[uid]} = ∅)) as [Hempty|Hne];
        destruct (decide (uid' = uid)) as [->|Huid].
      * by rewrite (bool_decide_eq_true_2 (_ ∧ _)).
      * rewrite (bool_decide_eq_false_2 (_ ∧ _)) by (intros [? ?]; congruence).
        symmetry. apply bool_decide_eq_false_2. intros Hin.
        assert (uid' ∈ released ∖ {[uid]}) as Hin'
          by (rewrite elem_of_difference, elem_of_singleton; tauto).
        rewrite Hempty in Hin'. by apply elem_of_empty in Hin'.
      * rewrite (bool_decide_eq_true_2 (_ ∧ _)) by done.
        apply bool_decide_eq_false_2.
        rewrite elem_of_difference, elem_of_singleton. tauto.
      * rewrite (bool_decide_eq_false_2 (_ ∧ _)) by (intros [? ?]; congruence).
        apply bool_decide_ext.
        rewrite elem_of_difference, elem_of_singleton. tauto.
    + by case_bool_decide.
  - by rewrite (bool_decide_eq_false_2 (_ ∧ _)) by (intros [? ?]; congruence).
Qed.

(** X2. Unmarking a pod on an attachment makes [isPodReleased] false for
    that pair and leaves it as it was for every other pair; only the ledger
    changes. *)
Theorem deleteReleasedPod_unmarks_only nad uid a :
  ∃ a', pod.deleteReleasedPod nad uid a = Some ((), a')
        ∧ a' = pod.set_releasedPods (pod.releasedPods a') a
        ∧ ∀ nad' uid',
            pod.isPodReleased nad' uid' a' =
              if bool_decide (nad' = nad ∧ uid' = uid) then false
              else pod.isPodReleased nad' uid' a.
Proof.
  destruct (deleteReleasedPod_ledger nad uid a) as (ledger & Hdelete & _).
  eexists. split; [exact Hdelete|]. split; [done|].
  intros nad' uid'. by apply isPodReleased_after_delete.
Qed.

Lemma addReleasedPod_pruned nad uid a a' :
  pod.ledgerPruned a → pod.addReleasedPod nad uid a = Some ((), a') →
  pod.ledgerPruned a'.
Proof.
  rewrite addReleasedPod_ledger. intros Hpruned [= <-] nad' released. simpl.
  destruct (decide (nad' = nad)) as [->|Hnad].
  - rewrite lookup_insert_eq. intros [= <-] Hempty.
    assert (uid ∈ (∅ : gset string)) as Hin; [|by apply elem_of_empty in Hin].
    rewrite <- Hempty. apply elem_of_union_r. by apply elem_of_singleton.
  - rewrite lookup_insert_ne by done. apply Hpruned.
Qed.

Lemma deleteReleasedPod_pruned nad uid a a' :
  pod.ledgerPruned a → pod.deleteReleasedPod nad uid a = Some ((), a') →
  pod.ledgerPruned a'.
Proof.
  destruct (deleteReleasedPod_ledger nad uid a) as (ledger & -> & Hledger).
  intros Hpruned [= <-] nad' released. simpl. rewrite Hledger.
  destruct (decide (nad' = nad)) as [->|Hnad]; [|apply Hpruned].
  destruct (pod.releasedPods a !! nad) as [old|]; simpl; [|done].
  destruct (decide (old ∖ {[uid]} = ∅)); [done|]. by intros [= <-].
Qed.

Lemma ledger_round_trip nad uid a :
  pod.ledgerPruned a →
  pod.isPodReleased nad uid a = false →
  (pod.addReleasedPod nad uid;; pod.deleteReleasedPod nad uid) a = Some ((), a).
Proof.
  intros Hpruned Hfresh. unfold mbind, M_bind. rewrite addReleasedPod_ledger.
  destruct (deleteReleasedPod_ledger nad uid
              (pod.set_releasedPods
                 (<[nad := default ∅ (pod.releasedPods a !! nad) ∪ {[uid]}]>
                    (pod.releasedPods a)) a)) as (ledger & -> & Hledger).
  simpl in Hledger.
  assert (ledger = pod.releasedPods a) as ->; [|by destruct a].
  apply map_eq. intros nad'. rewrite Hledger.
  destruct (decide (nad' = nad)) as [->|Hnad]; [|by rewrite lookup_insert_ne].
  rewrite lookup_insert_eq. simpl.
  unfold pod.isPodReleased in Hfresh. specialize (Hpruned nad).
  destruct (pod.releasedPods a !! nad) as [released|]; simpl.
  - apply bool_decide_eq_false_1 in Hfresh.
    assert ((released ∪ {[uid]}) ∖ {[uid]} = released) as ->.
    { apply set_eq. intros x.
      rewrite elem_of_difference, elem_of_union, elem_of_singleton.
      split; [tauto|]. intros Hx. split; [tauto|]. by intros ->. }
    rewrite decide_False; [done|]. by apply Hpruned.
  - rewrite decide_True; [done|].
    apply set_eq. intros x.
    rewrite elem_of_difference, elem_of_union, elem_of_singleton, elem_of_empty.
    tauto.
Qed.

(** X3. Marking a pod and then unmarking it gives the allocator back as it
    was, ledger included, when the pod was not marked before and the ledger
    holds no empty set: the entry of a pod lives from its completion to its
    deletion and leaves nothing behind. *)
Theorem mark_then_unmark_restores nad uid a :
  pod.ledgerPruned a →
  pod.isPodReleased nad uid a = false →
  (pod.addReleasedPod nad uid;; pod.deleteReleasedPod nad uid) a = Some ((), a).
Proof. apply ledger_round_trip. Qed.

(** X4. Marking twice is marking once, and unmarking twice is unmarking
    once: an event delivered again does not change the ledger. *)
Theorem ledger_updates_idempotent nad uid a :
  (pod.addReleasedPod nad uid;; pod.addReleasedPod nad uid) a
  = pod.addReleasedPod nad uid a
  ∧ (pod.deleteReleasedPod nad uid;; pod.deleteReleasedPod nad uid) a
    = pod.deleteReleasedPod nad uid a.
Proof.
  split; unfold mbind, M_bind.
  - rewrite !addReleasedPod_ledger. simpl. rewrite lookup_insert_eq. simpl.
    rewrite insert_insert_eq.
    assert (∀ X : gset string, X ∪ {[uid]} ∪ {[uid]} = X ∪ {[uid]}) as Hidem.
    { intros X. apply set_eq. intros x.
      rewrite !elem_of_union, elem_of_singleton. tauto. }
    by rewrite Hidem.
  - destruct (deleteReleasedPod_ledger nad uid a) as (ledger & -> & Hledger).
    destruct (deleteReleasedPod_ledger nad uid (pod.set_releasedPods ledger a))
      as (ledger' & -> & Hledger').
    simpl in *. assert (ledger' = ledger) as ->; [|done].
    apply map_eq. intros nad'.
    rewrite Hledger', !Hledger.
    destruct (decide (nad' = nad)) as [->|Hnad]; [|done].
    rewrite decide_True by done.
    destruct (pod.releasedPods a !! nad) as [released|]; simpl; [|done].
    destruct (decide (released ∖ {[uid]} = ∅)) as [Hempty|Hne]; simpl; [done|].
    assert (released ∖ {[uid]} ∖ {[uid]} = released ∖ {[uid]}) as ->.
    { apply set_eq. intros x. rewrite !elem_of_difference. tauto. }
    by rewrite decide_False.
Qed.

End ledger_properties.

(** ** Names in the ID allocator *)

Lemma containsSlash_podIdAllocationName nad uid :
  pod.containsSlash (pod.podIdAllocationName nad uid) = true.
Proof.
  unfold pod.podIdAllocationName.
  induction nad as [|c nad IH]; simpl; [done|].
  by destruct (bool_decide _).
Qed.

(** X5. The name under which a workload holds its tunnel ID is never the
    sentinel ["zero"], and it determines the attachment and the UID as long
    as UIDs have no [/]: two workloads, or two attachments of one workload,
    never share a name. *)
Theorem podIdAllocationName_unique nad uid nad' uid' :
  pod.containsSlash uid = false →
  pod.containsSlash uid' = false →
  pod.podIdAllocationName nad uid ≠ "zero"
  ∧ (pod.podIdAllocationName nad uid = pod.podIdAllocationName nad' uid' →
     nad = nad' ∧ uid = uid').
Proof.
  intros Huid Huid'. split; [apply podIdAllocationName_not_zero|].
  revert nad'. induction nad as [|c nad IH]; intros [|c' nad'] Heq;
    cbv [pod.podIdAllocationName String.append] in Heq.
  - by injection Heq as ->.
  - injection Heq as _ Heq. rewrite Heq in Huid.
    change (pod.containsSlash (pod.podIdAllocationName nad' uid') = false) in Huid.
    by rewrite containsSlash_podIdAllocationName in Huid.
  - injection Heq as _ Heq. rewrite <- Heq in Huid'.
    change (pod.containsSlash (pod.podIdAllocationName nad uid) = false) in Huid'.
    by rewrite containsSlash_podIdAllocationName in Huid'.
  - injection Heq as -> Heq. destruct (IH nad' Heq) as [-> ->]. done.
Qed.

(** Without the condition on UIDs two pairs can share a name. *)
Example podIdAllocationName_collision :
  pod.podIdAllocationName "ns1/blue" "a/b" = pod.podIdAllocationName "ns1/blue/a" "b".
Proof. reflexivity. Qed.

Lemma podIdAllocationName_unique_witness :
  pod.podIdAllocationName "ns1/blue" "uid-1" ≠ "zero"
  ∧ (pod.podIdAllocationName "ns1/blue" "uid-1"
     = pod.podIdAllocationName "ns1/blue" "uid-1" →
     "ns1/blue" = "ns1/blue" ∧ "uid-1" = "uid-1").
Proof.
  apply (podIdAllocationName_unique "ns1/blue" "uid-1" "ns1/blue" "uid-1");
    reflexivity.
Defined.

(** ** The release path and the ledger *)

Section pod_extras.
Context {U : UtilPkg} {S I K : Type}.
Context {SA : SubnetAllocator S} {IA : IDAllocator I} {KO : KubeOVN K}.
Context {PA : PodAnnotationAllocator S I K}.

Implicit Types (a : pod.PodAllocator S I K) (nad uid : string).

(** The update of the ledger at the end of the release path. *)
Lemma ledger_update_congr (podDeleted : bool) nad uid a0 a :
  pod.releasedPods a0 = pod.releasedPods a →
  ∃ b0 b,
    (if podDeleted then pod.deleteReleasedPod nad uid
     else pod.addReleasedPod nad uid) a0 = Some ((), b0)
    ∧ (if podDeleted then pod.deleteReleasedPod nad uid
       else pod.addReleasedPod nad uid) a = Some ((), b)
    ∧ pod.releasedPods b0 = pod.releasedPods b.
Proof.
  intros Hsame. destruct podDeleted.
  - destruct (deleteReleasedPod_ledger nad uid a0) as (l0 & -> & Hl0).
    destruct (deleteReleasedPod_ledger nad uid a) as (l & -> & Hl).
    eexists _, _. split; [done|]. split; [done|]. simpl.
    apply map_eq. intros nad'. by rewrite Hl0, Hl, Hsame.
  - rewrite !addReleasedPod_ledger. eexists _, _. split; [done|]. split; [done|].
    simpl. by rewrite Hsame.
Qed.

Lemma releasePodOnNAD_ledger pod nad network podDeleted releaseFromAllocator a err a' :
  pod.releasePodOnNAD pod nad network podDeleted releaseFromAllocator a = Some (err, a') →
  if is_nil err && (DoesNetworkRequireIPAM (pod.netInfo a)
                    || DoesNetworkRequireTunnelIDs (pod.netInfo a))
  then ∃ b, (if podDeleted then pod.deleteReleasedPod nad (UID pod)
             else pod.addReleasedPod nad (UID pod)) a = Some ((), b)
            ∧ pod.releasedPods a' = pod.releasedPods b
  else pod.releasedPods a' = pod.releasedPods a.
Proof.
  unfold pod.releasePodOnNAD. run.
  generalize (if bool_decide (IPAMClaimReference network ≠ "")
              then is_nil (GetPersistentIPs (pod.watchFactory a) (Namespace pod)
                             (IPAMClaimReference network)).2
              else false).
  generalize (IPs match (UnmarshalPodAnnotation (Annotations pod) nad).1 with
                  | Some annotation => annotation
                  | None => emptyPodAnnotation
                  end).
  generalize (releaseFromAllocator && negb (pod.isPodReleased nad (UID pod) a)).
  intros doRelease ips live.
  unfold pod.idAllocator_ReleaseID, pod.ipAllocator_ReleaseIPs.
  destruct (DoesNetworkRequireIPAM (pod.netInfo a)),
           (DoesNetworkRequireTunnelIDs (pod.netInfo a)),
           doRelease, live; simpl;
    destruct (pod.idAllocator a) as [i|] eqn:Hid,
             (pod.ipAllocator a) as [s|] eqn:Hip; simpl;
    try rewrite Hip; try rewrite Hid; simpl;
    try destruct (ReleaseIPs (GetNetworkName (pod.netInfo a)) ips s) as [[e|] s'];
    simpl;
    try (intros [= <- <-]; simpl; rewrite ?andb_false_r; done);
    try done;
    match goal with
    | |- match ?op ?a0 with _ => _ end = _ → _ =>
        destruct (ledger_update_congr podDeleted nad (UID pod) a0 a eq_refl)
          as (b0 & b & Hb0 & Hb & Hsame);
        rewrite Hb0; intros [= <- <-]; simpl; eauto
    end.
Qed.

Lemma isPodReleased_same_ledger nad uid a a' :
  pod.releasedPods a' = pod.releasedPods a →
  pod.isPodReleased nad uid a' = pod.isPodReleased nad uid a.
Proof. unfold pod.isPodReleased. by intros ->. Qed.

(** X6. A traversal of the release path that returns leaves the network
    configuration, the informer and the API server as they were, and in the
    ledger it changes nothing but the entry of its own attachment and pod. *)
Theorem releasePodOnNAD_touches_only_its_pair
    pod nad network podDeleted releaseFromAllocator a err a' :
  pod.releasePodOnNAD pod nad network podDeleted releaseFromAllocator a = Some (err, a') →
  pod.netInfo a' = pod.netInfo a
  ∧ pod.watchFactory a' = pod.watchFactory a
  ∧ pod.kube a' = pod.kube a
  ∧ ∀ nad' uid', ¬ (nad' = nad ∧ uid' = UID pod) →
      pod.isPodReleased nad' uid' a' = pod.isPodReleased nad' uid' a.
Proof.
  intros Hrun.
  destruct (releasePodOnNAD_returns _ _ _ _ _ _ _ _ Hrun) as (Hnet & Hwf & Hkube & _).
  split; [done|]. split; [done|]. split; [done|].
  intros nad' uid' Hother.
  pose proof (releasePodOnNAD_ledger _ _ _ _ _ _ _ _ Hrun) as Hledger.
  destruct (is_nil err && _).
  - destruct Hledger as (b & Hb & Hsame).
    rewrite (isPodReleased_same_ledger _ _ b a') by done.
    destruct podDeleted.
    + rewrite (isPodReleased_after_delete _ _ _ _ nad' uid' Hb).
      by rewrite bool_decide_eq_false_2.
    + rewrite (isPodReleased_after_add _ _ _ _ nad' uid' Hb).
      by rewrite bool_decide_eq_false_2.
  - by apply isPodReleased_same_ledger.
Qed.

(** X7. The traversal for the completion of a pod followed by the traversal
    for its deletion, both returning nil, leaves the ledger exactly as it
    was before the completion, when the pod was not in it and it held no
    empty set: the ledger does not grow with the pods that come and go. *)
Theorem completion_then_deletion_restores_ledger
    pod pod' nad network network' releaseFromAllocator releaseFromAllocator' a a1 a2 :
  pod.ledgerPruned a →
  pod.isPodReleased nad (UID pod) a = false →
  UID pod' = UID pod →
  pod.releasePodOnNAD pod nad network false releaseFromAllocator a = Some (nil, a1) →
  pod.releasePodOnNAD pod' nad network' true releaseFromAllocator' a1 = Some (nil, a2) →
  pod.releasedPods a2 = pod.releasedPods a.
Proof.
  intros Hpruned Hfresh Huid Hfirst Hsecond.
  destruct (releasePodOnNAD_returns _ _ _ _ _ _ _ _ Hfirst) as (Hnet & _).
  pose proof (releasePodOnNAD_ledger _ _ _ _ _ _ _ _ Hfirst) as Hl1.
  pose proof (releasePodOnNAD_ledger _ _ _ _ _ _ _ _ Hsecond) as Hl2.
  rewrite Hnet, Huid in Hl2. simpl in Hl1, Hl2.
  destruct (DoesNetworkRequireIPAM (pod.netInfo a)
            || DoesNetworkRequireTunnelIDs (pod.netInfo a)); [|congruence].
  destruct Hl1 as (b & Hadd & Hsame1). destruct Hl2 as (c & Hdelete & Hsame2).
  destruct (ledger_update_congr true nad (UID pod) a1 b Hsame1)
    as (c0 & c' & Hc0 & Hc' & Hsame3).
  rewrite Hdelete in Hc0. injection Hc0 as <-.
  pose proof (ledger_round_trip nad (UID pod) a Hpruned Hfresh) as Hround.
  unfold mbind, M_bind in Hround. rewrite Hadd, Hc' in Hround.
  injection Hround as ->. congruence.
Qed.

Lemma allocatePodOnNAD_frame pod nad network a err a' :
  pod.allocatePodOnNAD pod nad network a = Some (err, a') →
  pod.netInfo a' = pod.netInfo a
  ∧ pod.watchFactory a' = pod.watchFactory a
  ∧ pod.releasedPods a' = pod.releasedPods a.
Proof.
  unfold pod.allocatePodOnNAD, pod.podAnnotationAllocator_Allocate,
    pod.findIPAMClaim, pod.on_persistentIPsAllocator. run.
  destruct (DoesNetworkRequireIPAM (pod.netInfo a));
    [destruct (pod.ipAllocator a) as [s|]; [|done]|]; simpl;
    (destruct (DoesNetworkRequireTunnelIDs (pod.netInfo a));
     [destruct (pod.idAllocator a) as [i|]; [|done]|]; simpl).
  all: try case_bool_decide;
    try destruct (GetPersistentIPs (pod.watchFactory a) (Namespace pod)
                    (IPAMClaimReference network)) as [claim [e|]];
    simpl.
  all: try match goal with
       | |- context [AllocatePodAnnotationWithTunnelID ?x ?y ?p ?n ?c false ?st] =>
           destruct (AllocatePodAnnotationWithTunnelID x y p n c false st)
             as [[[updated annotation]|e'] [[s' i'] k']]; simpl
       end.
  all: try match goal with
       | |- context [match ?c with Some _ => _ | None => _ end] =>
           is_var c; destruct c; simpl
       end.
  all: try match goal with
       | |- context [match ?c with Some _ => _ | None => _ end] =>
           is_var c; destruct c; simpl
       end.
  all: try match goal with
       | |- context [persistentips.Reconcile ?c ?l ?p] =>
           destruct (Reconcile_total c l p) as ([e2|] & k2 & ->); simpl
       end.
  all: try done.
  all: by intros [= <- <-].
Qed.

(** An invariant of the steps of a loop is an invariant of the loop. *)
Lemma for_each_until_error_invariant {A : Type}
    (P : pod.PodAllocator S I K → Prop)
    (f : A → M (pod.PodAllocator S I K) error) (xs : list A) a err a' :
  (∀ x b e b', P b → f x b = Some (e, b') → P b') →
  P a → for_each_until_error f xs a = Some (err, a') → P a'.
Proof.
  intros Hstep. revert a.
  induction xs as [|x xs IH]; intros a Ha; simpl; run.
  - by intros [= _ <-].
  - destruct (f x a) as [[[e|] a1]|] eqn:Hx; [| |done].
    + intros [= _ <-]. by eapply Hstep.
    + apply IH. by eapply Hstep.
Qed.

Lemma releasePodOnNAD_pruned pod nad network podDeleted releaseFromAllocator a err a' :
  pod.ledgerPruned a →
  pod.releasePodOnNAD pod nad network podDeleted releaseFromAllocator a = Some (err, a') →
  pod.ledgerPruned a'.
Proof.
  intros Hpruned Hrun.
  pose proof (releasePodOnNAD_ledger _ _ _ _ _ _ _ _ Hrun) as Hledger.
  unfold pod.ledgerPruned.
  destruct (is_nil err && _).
  - destruct Hledger as (b & Hb & ->).
    destruct podDeleted;
      [by eapply deleteReleasedPod_pruned|by eapply addReleasedPod_pruned].
  - by rewrite Hledger.
Qed.

Lemma Init_frame a err a' :
  pod.Init a = Some (err, a') →
  pod.netInfo a' = pod.netInfo a
  ∧ pod.watchFactory a' = pod.watchFactory a
  ∧ pod.kube a' = pod.kube a
  ∧ pod.releasedPods a' = pod.releasedPods a.
Proof.
  unfold pod.Init, pod.idAllocator_ReserveID, pod.ipAllocator_AddOrUpdateSubnet. run.
  destruct (DoesNetworkRequireTunnelIDs (pod.netInfo a)); simpl;
    [destruct (NewIDAllocator _ _) as [[i|] [e|]]; simpl;
     try destruct (ReserveID "zero" 0 i) as [[e'|] i']; simpl|];
    try done; try (by intros [= <- <-]);
    (destruct (DoesNetworkRequireIPAM (pod.netInfo a)); simpl;
     [destruct (pod.ipAllocator a) as [s|]; [|done];
      destruct (AddOrUpdateSubnet _ _ _ s) as [err' s']|];
     by intros [= <- <-]).
Qed.

Lemma reconcile_keeps_invariants old new releaseFromAllocator a err a' :
  pod.reconcile old new releaseFromAllocator a = Some (err, a') →
  pod.keeps_invariants a a'.
Proof.
  destruct (pod.event_pod old new) as [p|] eqn:Hevent;
    [|unfold pod.reconcile; by rewrite Hevent].
  rewrite (reconcile_per_attachment old new p) by done.
  destruct (negb (PodScheduled p) || PodWantsHostNetwork p);
    [by intros [= _ <-]|].
  destruct (GetPodNADToNetworkMapping p (pod.netInfo a)) as [[[] nm] [e|]];
    try by intros [= _ <-].
  apply (for_each_until_error_invariant (pod.keeps_invariants a)); [|done].
  intros [nad network] b e b' (Hnet & Hwf & Hpruned) Hstep.
  destruct (PodCompleted p || is_nil new).
  - destruct (releasePodOnNAD_returns _ _ _ _ _ _ _ _ Hstep) as (Hnet' & Hwf' & _).
    split; [congruence|]. split; [congruence|].
    intros Ha. eapply releasePodOnNAD_pruned; [|done]. auto.
  - destruct (allocatePodOnNAD_frame _ _ _ _ _ _ Hstep) as (Hnet' & Hwf' & Hledger).
    split; [congruence|]. split; [congruence|].
    intros Ha. unfold pod.ledgerPruned. rewrite Hledger. by apply Hpruned.
Qed.

Lemma Sync_keeps_invariants objs a err a' :
  pod.Sync objs a = Some (err, a') → pod.keeps_invariants a a'.
Proof.
  revert a. induction objs as [|[p|claim|typeName] objs IH]; intros a; simpl; run;
    [by intros [= _ <-]| |apply IH..].
  destruct (pod.reconcile None (Some p) false a) as [[e a1]|] eqn:Hp; [|done].
  intros Hrest. apply reconcile_keeps_invariants in Hp as (Hnet & Hwf & Hpruned).
  apply IH in Hrest as (Hnet' & Hwf' & Hpruned').
  split; [congruence|]. split; [congruence|]. auto.
Qed.

(** X8. The ledger of a new allocator holds no empty set, and [Init],
    [reconcile] (so [Reconcile]) and [Sync] keep that, along with the network
    configuration and the informer they were given: a network attachment is
    in the ledger only while some pod is released on it. *)
Theorem methods_keep_invariants
    (ni : NetInfo) (k : K) (w : WatchFactory) old new releaseFromAllocator objs a :
  pod.ledgerPruned (pod.NewPodAllocator (S := S) (I := I) ni k w)
  ∧ (∀ err a', pod.Init a = Some (err, a') → pod.keeps_invariants a a')
  ∧ (∀ err a', pod.reconcile old new releaseFromAllocator a = Some (err, a') →
               pod.keeps_invariants a a')
  ∧ (∀ err a', pod.Sync objs a = Some (err, a') → pod.keeps_invariants a a').
Proof.
  split; [|split; [|split]].
  - intros nad released. simpl. by rewrite lookup_empty.
  - intros err a' Hinit.
    destruct (Init_frame _ _ _ Hinit) as (Hnet & Hwf & _ & Hledger).
    split; [done|]. split; [done|].
    unfold pod.ledgerPruned. by rewrite Hledger.
  - intros err a'. apply reconcile_keeps_invariants.
  - intros err a'. apply Sync_keeps_invariants.
Qed.

(** X9. The allocate path never touches the ledger, and neither does the
    reconcile of a pod that is present and not completed, whatever it
    returns. *)
Theorem active_pod_leaves_ledger old p releaseFromAllocator a :
  PodCompleted p = false →
  (∀ nad network err a',
     pod.allocatePodOnNAD p nad network a = Some (err, a') →
     pod.releasedPods a' = pod.releasedPods a)
  ∧ (∀ err a',
       pod.reconcile old (Some p) releaseFromAllocator a = Some (err, a') →
       pod.releasedPods a' = pod.releasedPods a).
Proof.
  intros Hactive. split.
  - intros nad network err a' Hrun.
    by destruct (allocatePodOnNAD_frame _ _ _ _ _ _ Hrun) as (_ & _ & ?).
  - intros err a'. rewrite (reconcile_per_attachment old (Some p) p) by done.
    destruct (negb (PodScheduled p) || PodWantsHostNetwork p);
      [by intros [= _ <-]|].
    destruct (GetPodNADToNetworkMapping p (pod.netInfo a)) as [[[] nm] [e|]];
      try by intros [= _ <-].
    rewrite Hactive. simpl.
    apply (for_each_until_error_invariant
             (λ b, pod.releasedPods b = pod.releasedPods a)); [|done].
    intros [nad network] b e b' Hb Hstep.
    destruct (allocatePodOnNAD_frame _ _ _ _ _ _ Hstep) as (_ & _ & Hledger).
    congruence.
Qed.

(** ** The allocate path and the claim *)

(** X10. On a network with IPAM, the allocate path of an attachment that
    names a claim the informer does not find returns an error before
    anything is allocated: the allocator is as it was. *)
Theorem allocate_fails_without_its_claim pod nad network a :
  pod.initialised a →
  DoesNetworkRequireIPAM (pod.netInfo a) = true →
  IPAMClaimReference network ≠ "" →
  (GetPersistentIPs (pod.watchFactory a) (Namespace pod)
     (IPAMClaimReference network)).2 ≠ nil →
  pod.allocatePodOnNAD pod nad network a
  = Some (Some (Errorf "failed to get ipamLease %q"), a).
Proof.
  intros [Hwf_ip Hwf_id] HIPAM Href Hlookup.
  unfold pod.allocatePodOnNAD, pod.findIPAMClaim. run.
  rewrite HIPAM. destruct (Hwf_ip HIPAM) as [s ->]. simpl.
  destruct (DoesNetworkRequireTunnelIDs (pod.netInfo a)) eqn:HID;
    [destruct (Hwf_id eq_refl) as [i ->]|]; simpl;
    rewrite bool_decide_eq_true_2 by done;
    by destruct (GetPersistentIPs _ _ _) as [claim [e|]].
Qed.

(** X11. On a network with IPAM, when the claim of the attachment is found
    and the annotation allocator succeeds, the allocate path writes the
    addresses of the new annotation to the claim exactly when the status of
    the claim is empty: it returns the error of that write, or nil; a claim
    with a status is not written. The allocators are as the annotation
    allocator left them. *)
Theorem allocate_records_claim_once
    pod nad network a claim updated annotation s' i' k' :
  pod.initialised a →
  DoesNetworkRequireIPAM (pod.netInfo a) = true →
  IPAMClaimReference network ≠ "" →
  GetPersistentIPs (pod.watchFactory a) (Namespace pod) (IPAMClaimReference network)
  = (Some claim, nil) →
  AllocatePodAnnotationWithTunnelID
    (Some (GetNetworkName (pod.netInfo a)))
    (if DoesNetworkRequireTunnelIDs (pod.netInfo a)
     then Some (pod.podIdAllocationName nad (UID pod)) else None)
    pod network (Some claim) false
    (pod.ipAllocator a, pod.idAllocator a, pod.kube a)
  = (inl (updated, annotation), (Some s', i', k')) →
  let written := UpdateIPAMLeaseIPs claim (StringSlice (IPs annotation)) k' in
  ∃ a', pod.allocatePodOnNAD pod nad network a =
          Some (if bool_decide (0 < length (StatusIPs claim)) then nil
                else if is_nil written.1 then nil
                     else Some (Errorf
                       "failed to update the allocation %q with allocations %q: %v"),
                a')
        ∧ pod.kube a' = (if bool_decide (0 < length (StatusIPs claim)) then k'
                         else written.2)
        ∧ pod.ipAllocator a' = Some s'
        ∧ pod.idAllocator a' = i'
        ∧ pod.releasedPods a' = pod.releasedPods a.
Proof.
  intros [Hwf_ip Hwf_id] HIPAM Href Hlookup Hallocate written.
  unfold pod.allocatePodOnNAD, pod.findIPAMClaim, pod.podAnnotationAllocator_Allocate,
    pod.on_persistentIPsAllocator, persistentips.Reconcile,
    persistentips.kube_UpdateIPAMLeaseIPs. run.
  rewrite HIPAM in *. destruct (Hwf_ip eq_refl) as [s Hs]. rewrite Hs in *. simpl.
  destruct (DoesNetworkRequireTunnelIDs (pod.netInfo a)) eqn:HID;
    [destruct (Hwf_id eq_refl) as [i Hi]; rewrite Hi in *|]; simpl in *;
    rewrite bool_decide_eq_true_2 by done; rewrite Hlookup; simpl;
    rewrite ?Hs, ?Hi; rewrite Hallocate; simpl;
    (case_bool_decide; simpl; [by eexists|]);
    fold written; destruct written as [[e|] k'']; simpl; by eexists.
Qed.

End pod_extras.

(** * The further properties on the example cluster *)

Section example_extras.
#[local] Existing Instances example.util model.subnetAllocator model.idAllocator
  model.kubeOVN example.annotationAllocator.

Lemma running_ledger_pruned : pod.ledgerPruned example.running.
Proof.
  intros nad released.
  replace (pod.releasedPods example.running) with (∅ : gmap string (gset string))
    by (by vm_compute).
  by rewrite lookup_empty.
Qed.

Lemma mark_then_unmark_restores_witness :
  (pod.addReleasedPod "ns1/blue" "uid-1";; pod.deleteReleasedPod "ns1/blue" "uid-1")
    example.running = Some ((), example.running).
Proof.
  apply mark_then_unmark_restores.
  - apply running_ledger_pruned.
  - by vm_compute.
Defined.

Lemma releasePodOnNAD_touches_only_its_pair_witness :
  pod.netInfo example.completed = pod.netInfo example.running
  ∧ pod.watchFactory example.completed = pod.watchFactory example.running
  ∧ pod.kube example.completed = pod.kube example.running
  ∧ ∀ nad' uid', ¬ (nad' = "ns1/blue" ∧ uid' = "uid-1") →
      pod.isPodReleased nad' uid' example.completed
      = pod.isPodReleased nad' uid' example.running.
Proof.
  refine (releasePodOnNAD_touches_only_its_pair (example.worker "Succeeded")
            "ns1/blue" example.attachment.2 false true example.running nil
            example.completed _).
  by vm_compute.
Defined.

Lemma completion_then_deletion_restores_ledger_witness :
  pod.releasedPods example.deleted = pod.releasedPods example.running.
Proof.
  refine (completion_then_deletion_restores_ledger (example.worker "Succeeded")
            (example.worker "Succeeded") "ns1/blue" example.attachment.2
            example.attachment.2 true true example.running example.completed
            example.deleted _ _ _ _ _).
  - apply running_ledger_pruned.
  - by vm_compute.
  - reflexivity.
  - by vm_compute.
  - by vm_compute.
Defined.

Lemma methods_keep_invariants_witness :
  pod.keeps_invariants example.initial example.running.
Proof.
  refine (proj1 (proj2 (proj2 (methods_keep_invariants example.blue example.apiServer
            example.informer None (Some (example.worker "Running")) true []
            example.initial))) nil example.running _).
  by vm_compute.
Defined.

Lemma active_pod_leaves_ledger_witness :
  pod.releasedPods example.running = pod.releasedPods example.initial.
Proof.
  refine (proj2 (active_pod_leaves_ledger None (example.worker "Running") true
                   example.initial _) nil example.running _).
  - reflexivity.
  - by vm_compute.
Defined.

Lemma initial_initialised : pod.initialised example.initial.
Proof. split; intros _; eexists; by vm_compute. Qed.

Lemma allocate_fails_without_its_claim_witness :
  pod.allocatePodOnNAD (example.worker "Running") "ns1/blue" example.orphanAttachment.2
    example.initial
  = Some (Some (Errorf "failed to get ipamLease %q"), example.initial).
Proof.
  apply allocate_fails_without_its_claim.
  - apply initial_initialised.
  - reflexivity.
  - simpl. discriminate.
  - simpl. discriminate.
Defined.

Lemma allocate_records_claim_once_witness :
  ∃ a', pod.allocatePodOnNAD (example.worker "Running") "ns1/blue"
          example.claimedAttachment.2 example.initial = Some (nil, a')
        ∧ pod.kube a' = example.apiServer
        ∧ pod.ipAllocator a' = pod.ipAllocator example.running
        ∧ pod.idAllocator a' = pod.idAllocator example.running
        ∧ pod.releasedPods a' = pod.releasedPods example.initial.
Proof.
  refine (allocate_records_claim_once (example.worker "Running") "ns1/blue"
            example.claimedAttachment.2 example.initial
            (example.claim1 ["192.168.200.2/24"]) None example.claimedAnnotation
            example.runningPools (pod.idAllocator example.running) example.apiServer
            _ _ _ _ _).
  - apply initial_initialised.
  - reflexivity.
  - simpl. discriminate.
  - reflexivity.
  - by vm_compute.
Defined.

End example_extras.
